(** * Sentinel dual-LLM analysis and quality scoring

    A shallow embedding of [sentinel/evaluator.py] and
    [sentinel/dspy_program.py].

    - Python floats are IEEE-754 binary64 values, taken from the
      specification of floating-point arithmetic in the Standard Library
      ([spec_float] with 53-bit mantissa and maximal exponent 1024).
    - Python dicts with string keys are [gmap string _]; dynamically typed
      entries are [value]s.
    - Exceptions, the external calls (metric scorers, language models) and
      the clock are threaded through a state-and-exception monad [M]. *)

From Stdlib Require Import ZArith String List Bool Lia.
From Stdlib Require Import Floats.SpecFloat.
From stdpp Require Import base tactics option list strings gmap.

Open Scope Z_scope.
Open Scope string_scope.
Open Scope list_scope.
Open Scope stdpp_scope.

(* ===================================================================== *)
(** ** Binary64 arithmetic, as Python's [float] *)
(* ===================================================================== *)

Module F64.

Definition prec : Z := 53.
Definition emax : Z := 1024.

Definition add : spec_float → spec_float → spec_float := SFadd prec emax.
Definition sub : spec_float → spec_float → spec_float := SFsub prec emax.
Definition div : spec_float → spec_float → spec_float := SFdiv prec emax.
Definition ltb : spec_float → spec_float → bool := SFltb.
Definition leb : spec_float → spec_float → bool := SFleb.
Definition eqb : spec_float → spec_float → bool := SFeqb.

(** [float(z)] for a Python int (round to nearest even; exact when
    [|z| <= 2^53]). *)
Definition of_Z (z : Z) : spec_float := binary_normalize prec emax z 0 false.

Definition zero : spec_float := S754_zero false.

(** A number, as opposed to an infinity or a NaN. *)
Definition is_finite (x : spec_float) : bool :=
  match x with
  | S754_zero _ | S754_finite _ _ _ => true
  | S754_infinity _ | S754_nan => false
  end.

(** The doubles denoted by the literals of the sources and of the
    examples below, as [m * 2^e] with a 53-bit mantissa [m]; in Python,
    [float.hex] prints them as 0x1.6666666666666p-1 (0.7),
    0x1.0000000000000p-1 (0.5), 0x1.999999999999ap-4 (0.1),
    0x1.ccccccccccccdp-1 (0.9) and 0x1.999999999999bp-4
    (0.10000000000000002, the double that follows 0.1). *)
Definition lit_0_7 : spec_float := S754_finite false 6305039478318694 (-53).
Definition lit_0_5 : spec_float := S754_finite false 4503599627370496 (-53).
Definition lit_0_1 : spec_float := S754_finite false 7205759403792794 (-56).
Definition lit_0_9 : spec_float := S754_finite false 8106479329266893 (-53).
Definition lit_0_1_succ : spec_float := S754_finite false 7205759403792795 (-56).

(** [sum] on a list of floats.  Up to CPython 3.11 the floats are added
    from left to right, starting from the int 0.  From CPython 3.12 on
    the first float is added to the int 0 and the others are added with
    compensation: the rounding error of each addition is accumulated
    apart and added at the end, when it is finite and not zero. *)
Inductive sum_algorithm := Naive | Compensated.

(** The interpreter that runs the program: which of the two it is. *)
Class Interpreter := float_sum_algorithm : sum_algorithm.

Definition naive_sum (xs : list spec_float) : spec_float :=
  fold_left add xs zero.

Definition compensated_step (acc : spec_float * spec_float) (x : spec_float)
    : spec_float * spec_float :=
  let '(total, c) := acc in
  let t := add total x in
  (t, add c (if leb (SFabs x) (SFabs total)
             then add (sub total t) x
             else add (sub x t) total)).

Definition compensated_sum (xs : list spec_float) : spec_float :=
  match xs with
  | [] => zero
  | x :: xs' =>
      let '(total, c) := fold_left compensated_step xs' (add zero x, zero) in
      if is_finite c && negb (eqb c zero) then add total c else total
  end.

Definition float_sum `{Interpreter} (xs : list spec_float) : spec_float :=
  match float_sum_algorithm with
  | Naive => naive_sum xs
  | Compensated => compensated_sum xs
  end.

End F64.

(* ===================================================================== *)
(** ** Python values and exceptions *)
(* ===================================================================== *)

Inductive value :=
| VNone
| VBool (b : bool)
| VInt (z : Z)
| VFloat (f : spec_float)
| VStr (s : string).

(** A dict with string keys holding plain values (one metric entry, one
    structured result, the attributes of a prediction). *)
Abbreviation dict := (gmap string value).

(** An exception, by its class name and [str(e)].  These are the
    exceptions that derive from [Exception], the ones that
    [except Exception] catches; interrupts of the interpreter are not
    part of the model. *)
Inductive exn := Exception (cls : string) (msg : string).

Definition str (e : exn) : string := let 'Exception _ msg := e in msg.

Inductive res (A : Type) :=
| Ok (a : A)
| Raise (e : exn).
Arguments Ok {A} a.
Arguments Raise {A} e.

(** [d.get(k, default)]. *)
Definition get {V} (d : gmap string V) (k : string) (dflt : V) : V :=
  default dflt (d !! k).

(** *** Arithmetic and comparison of dynamically typed operands

    [bool] is a subclass of [int]; an [int] meeting a [float] is converted
    to a double first (exact up to [2^53]; the only integer the evaluator
    supplies is the literal [0]).  Other operands raise [TypeError]. *)

Definition as_number (v : value) : option (Z + spec_float) :=
  match v with
  | VBool b => Some (inl (Z.b2z b))
  | VInt z => Some (inl z)
  | VFloat f => Some (inr f)
  | VNone | VStr _ => None
  end.

Definition to_float (n : Z + spec_float) : spec_float :=
  match n with inl z => F64.of_Z z | inr f => f end.

Definition TypeError (op : string) : exn :=
  Exception "TypeError" ("unsupported operand type(s) for " ++ op).

Definition arith (op : string) (fz : Z → Z → Z)
    (ff : spec_float → spec_float → spec_float) (a b : value) : res value :=
  match as_number a, as_number b with
  | Some (inl x), Some (inl y) => Ok (VInt (fz x y))
  | Some x, Some y => Ok (VFloat (ff (to_float x) (to_float y)))
  | _, _ => Raise (TypeError op)
  end.

Definition compare_with (op : string) (cz : Z → Z → bool)
    (cf : spec_float → spec_float → bool) (a b : value) : res bool :=
  match as_number a, as_number b with
  | Some (inl x), Some (inl y) => Ok (cz x y)
  | Some x, Some y => Ok (cf (to_float x) (to_float y))
  | _, _ => Raise (TypeError op)
  end.

(** [a + b], [a - b], [a > b], [a < b], [a >= b] *)
Definition py_add : value → value → res value := arith "+" Z.add F64.add.
Definition py_sub : value → value → res value := arith "-" Z.sub F64.sub.
Definition py_gt : value → value → res bool :=
  compare_with ">" Z.gtb (λ x y, F64.ltb y x).
Definition py_lt : value → value → res bool :=
  compare_with "<" Z.ltb F64.ltb.
Definition py_ge : value → value → res bool :=
  compare_with ">=" Z.geb (λ x y, F64.leb y x).

(** [a / b] (true division) of a number by a positive count. *)
Definition py_truediv (a : value) (n : Z) : res value :=
  match as_number a with
  | Some x =>
      if Z.eqb n 0 then Raise (Exception "ZeroDivisionError" "division by zero")
      else Ok (VFloat (F64.div (to_float x) (F64.of_Z n)))
  | None => Raise (TypeError "/")
  end.

(** [a == b] on numbers; [False] between a number and anything else. *)
Definition py_eq_num (a b : value) : bool :=
  match as_number a, as_number b with
  | Some (inl x), Some (inl y) => Z.eqb x y
  | Some x, Some y => F64.eqb (to_float x) (to_float y)
  | _, _ => false
  end.

(* ===================================================================== *)
(** ** Effects: external calls, the clock, exceptions *)
(* ===================================================================== *)

(** What lies outside the program (model servers, the metrics' judges) is
    a world [W]; its clock is read through [utcnow_isoformat]. *)
Class Clock (W : Type) := utcnow_isoformat : W → string.

(** The state threaded through a run: the world, and the names of the
    external calls made so far, oldest first.  The log is not in the
    sources; it records which scorer or backend was invoked. *)
Record St (W : Type) := mkSt { world : W; calls : list string }.
Arguments mkSt {W} world calls.
Arguments world {W} s.
Arguments calls {W} s.

Definition M (W A : Type) : Type := St W → St W * res A.

#[export] Instance M_ret {W} : MRet (M W) := λ A a s, (s, Ok a).

#[export] Instance M_bind {W} : MBind (M W) := λ A B f m s,
  match m s with
  | (s', Ok a) => f a s'
  | (s', Raise e) => (s', Raise e)
  end.

(** A pure computation that may raise. *)
Definition lift {W A} (r : res A) : M W A := λ s, (s, r).

(** [try: body  except Exception as e: handler(e)].  Whatever the body did
    to the world before raising stays done. *)
Definition try_except {W A} (body : M W A) (handler : exn → M W A) : M W A :=
  λ s,
    match body s with
    | (s', Ok a) => (s', Ok a)
    | (s', Raise e) => handler e s'
    end.

(** A call out of the program, logged under the name [who]. *)
Definition extern {W A} (who : string) (f : W → W * res A) : M W A :=
  λ s,
    let '(w', r) := f (world s) in
    (mkSt w' (calls s ++ [who]), r).

(** [datetime.utcnow().isoformat()] *)
Definition utcnow {W} `{Clock W} : M W string :=
  λ s, (s, Ok (utcnow_isoformat (world s))).

(** [for x in xs: acc = body(acc, x)] *)
Fixpoint for_each {W A B} (body : B → A → M W B) (xs : list A) (acc : B)
    : M W B :=
  match xs with
  | [] => mret acc
  | x :: xs' => acc' ← body acc x; for_each body xs' acc'
  end.

(** [obj.name]; a missing attribute raises [AttributeError]. *)
Definition getattr {W} (obj : dict) (name : string) : M W value :=
  lift (match obj !! name with
        | Some v => Ok v
        | None => Raise (Exception "AttributeError" name)
        end).

#[export] Instance res_ret : MRet res := λ A a, Ok a.

#[export] Instance res_bind : MBind res := λ A B f r,
  match r with
  | Ok a => f a
  | Raise e => Raise e
  end.

(** The floats of a list that holds floats only. *)
Fixpoint floats_of (xs : list value) : option (list spec_float) :=
  match xs with
  | [] => Some []
  | VFloat f :: xs' => cons f <$> floats_of xs'
  | _ => None
  end.

(** [sum(xs)].  A list of floats is summed as the interpreter sums
    floats.  Any other list is added up from the int [0], left to right;
    CPython 3.12 compensates inside lists that mix floats with other
    numbers too, which the evaluator never sums: every score it collects
    is a float. *)
Definition py_sum `{F64.Interpreter} (xs : list value) : res value :=
  match xs, floats_of xs with
  | _ :: _, Some fs => Ok (VFloat (F64.float_sum fs))
  | _, _ => foldl (λ acc x, a ← acc; py_add a x) (Ok (VInt 0)) xs
  end.

(** [min(xs)] and [max(xs)]: the running best is replaced by an item that
    is strictly smaller (resp. larger); an empty list raises. *)
Definition py_best (op : value → value → res bool) (xs : list value)
    : res value :=
  match xs with
  | [] => Raise (Exception "ValueError" "arg is an empty sequence")
  | x :: xs' =>
      foldl (λ acc v, best ← acc; b ← op v best; mret (if b : bool then v else best))
            (Ok x) xs'
  end.

Definition py_min : list value → res value := py_best py_lt.
Definition py_max : list value → res value := py_best py_gt.

(* ===================================================================== *)
(** ** [sentinel/evaluator.py] *)
(* ===================================================================== *)

Module Evaluator.

Record LLMTestCase := mkLLMTestCase {
  input : string;
  actual_output : string;
  expected_output : option string;
  context : option string
}.

(** The result of [evaluate_analysis]. *)
Record EvaluationResult := mkEvaluationResult {
  er_test_case : LLMTestCase;
  er_results : gmap string dict;
  er_timestamp : string
}.

(** The result of [evaluate_comparison]. *)
Record ComparisonEvaluation := mkComparisonEvaluation {
  ollama_evaluation : EvaluationResult;
  cloud_evaluation : EvaluationResult;
  comparison : gmap string dict;
  ce_timestamp : string
}.

(** One element of [individual_results], and the result of
    [batch_evaluate]. *)
Record IndividualResult := mkIndividualResult {
  ir_test_case : LLMTestCase;
  ir_results : gmap string dict
}.

Record BatchResult := mkBatchResult {
  individual_results : list IndividualResult;
  aggregate_scores : gmap string dict;
  br_timestamp : string
}.

Section WithWorld.

Context {W : Type} `{Clock W} {python : F64.Interpreter}.

(** What a scorer does when asked to judge a test case:
    [metric.measure(test_case)] followed by the reads of
    [metric.score] and [metric.reason], or the exception raised on
    the way.  The reason is [None] when the metric has no such
    attribute. *)
Definition Scorer : Type :=
  W → LLMTestCase → W * res (spec_float * option string).

Record Metric := mkMetric {
  threshold : spec_float;
  measure : Scorer
}.

Record SentinelEvaluator := mkSentinelEvaluator {
  metrics : list (string * Metric);
  test_cases : list LLMTestCase
}.

(** [SentinelEvaluator.__init__], given how the four deepeval metrics
    behave. *)
Definition init (RelevanceMetric HallucinationMetric
                 AnswerRelevancyMetric FaithfulnessMetric : Scorer)
    : SentinelEvaluator :=
  {| metrics :=
       [ ("relevance", mkMetric F64.lit_0_7 RelevanceMetric);
         ("hallucination", mkMetric F64.lit_0_5 HallucinationMetric);
         ("answer_relevancy", mkMetric F64.lit_0_7 AnswerRelevancyMetric);
         ("faithfulness", mkMetric F64.lit_0_7 FaithfulnessMetric) ];
     test_cases := [] |}.

(** [self.metrics.keys()] *)
Definition keys (self : SentinelEvaluator) : list string :=
  (metrics self).*1.

Definition create_test_case (input_text actual : string)
    (expected ctx : option string) : LLMTestCase :=
  {| input := input_text; actual_output := actual;
     expected_output := expected; context := ctx |}.

Definition opt_str (o : option string) : value :=
  match o with Some s => VStr s | None => VNone end.

(** The body of the loop of [evaluate_analysis] for one metric. *)
Definition evaluate_metric (test_case : LLMTestCase)
    (results : gmap string dict) (item : string * Metric)
    : M W (gmap string dict) :=
  let '(metric_name, metric) := item in
  try_except
    ('(score, reason) ← extern metric_name (λ w, measure metric w test_case);
     mret (<[metric_name :=
               list_to_map
                 [ ("score", VFloat score);
                   ("threshold", VFloat (threshold metric));
                   ("passed", VBool (F64.leb (threshold metric) score));
                   ("reason", opt_str reason) ]]> results))
    (λ e,
     mret (<[metric_name :=
               list_to_map
                 [ ("error", VStr (str e));
                   ("passed", VBool false) ]]> results)).

Definition evaluate_analysis (self : SentinelEvaluator)
    (log_snippet analysis : string) (expected_severity : option string)
    : M W EvaluationResult :=
  let test_case :=
    create_test_case log_snippet analysis expected_severity
                     (Some "Installation log analysis") in
  results ← for_each (evaluate_metric test_case) (metrics self) ∅;
  ts ← utcnow;
  mret (mkEvaluationResult test_case results ts).

(** The body of the comparison loop of [evaluate_comparison]. *)
Definition compare_metric (ollama_eval cloud_eval : EvaluationResult)
    (comparison : gmap string dict) (metric_name : string)
    : M W (gmap string dict) :=
  let ollama_score :=
    get (get (er_results ollama_eval) metric_name ∅) "score" (VInt 0) in
  let cloud_score :=
    get (get (er_results cloud_eval) metric_name ∅) "score" (VInt 0) in
  difference ← lift (py_sub cloud_score ollama_score);
  cloud_wins ← lift (py_gt cloud_score ollama_score);
  mret (<[metric_name :=
            list_to_map
              [ ("ollama", ollama_score);
                ("cloud", cloud_score);
                ("difference", difference);
                ("better", VStr (if cloud_wins : bool
                                 then "cloud" else "ollama")) ]]>
          comparison).

Definition evaluate_comparison (self : SentinelEvaluator)
    (log_snippet ollama_analysis cloud_analysis : string)
    : M W ComparisonEvaluation :=
  ollama_eval ← evaluate_analysis self log_snippet ollama_analysis None;
  cloud_eval ← evaluate_analysis self log_snippet cloud_analysis None;
  comparison ← for_each (compare_metric ollama_eval cloud_eval)
                        (keys self) ∅;
  ts ← utcnow;
  mret (mkComparisonEvaluation ollama_eval cloud_eval comparison ts).

(** The body of the inner loop of [batch_evaluate] for one metric. *)
Definition batch_metric (test_case : LLMTestCase)
    (eval_result : gmap string dict) (item : string * Metric)
    : M W (gmap string dict) :=
  let '(metric_name, metric) := item in
  try_except
    ('(score, _) ← extern metric_name (λ w, measure metric w test_case);
     mret (<[metric_name :=
               list_to_map
                 [ ("score", VFloat score);
                   ("passed", VBool (F64.leb (threshold metric) score)) ]]>
             eval_result))
    (λ e,
     mret (<[metric_name := list_to_map [ ("error", VStr (str e)) ]]>
             eval_result)).

(** The body of the outer loop: score one case, append it. *)
Definition batch_case (self : SentinelEvaluator)
    (results : list IndividualResult) (test_case : LLMTestCase)
    : M W (list IndividualResult) :=
  eval_result ← for_each (batch_metric test_case) (metrics self) ∅;
  mret (results ++ [mkIndividualResult test_case eval_result]).

(** The list comprehension that collects the scores of one metric. *)
Definition collect_scores (metric_name : string)
    (results : list IndividualResult) : list value :=
  (λ r, get (get (ir_results r) metric_name ∅) "score" (VInt 0)) <$>
  filter (λ r, is_Some (get (ir_results r) metric_name ∅ !! "score"))
         results.

(** The body of the aggregation loop. *)
Definition aggregate_metric (results : list IndividualResult)
    (aggregate : gmap string dict) (metric_name : string)
    : M W (gmap string dict) :=
  let scores := collect_scores metric_name results in
  match scores with
  | [] => mret aggregate
  | _ :: _ =>
      let count := Z.of_nat (length scores) in
      total ← lift (py_sum scores);
      mean ← lift (py_truediv total count);
      lo ← lift (py_min scores);
      hi ← lift (py_max scores);
      mret (<[metric_name :=
                list_to_map
                  [ ("mean", mean); ("min", lo); ("max", hi);
                    ("count", VInt count) ]]> aggregate)
  end.

Definition batch_evaluate (self : SentinelEvaluator)
    (cases : list LLMTestCase) : M W BatchResult :=
  results ← for_each (batch_case self) cases [];
  aggregate ← for_each (aggregate_metric results) (keys self) ∅;
  ts ← utcnow;
  mret (mkBatchResult results aggregate ts).

(** [evaluate_sentinel_analysis] and [evaluate_dual_analysis] build a
    fresh evaluator and delegate. *)
Definition evaluate_sentinel_analysis (rel hal ans fai : Scorer)
    (log_snippet analysis : string) (expected_severity : option string)
    : M W EvaluationResult :=
  evaluate_analysis (init rel hal ans fai) log_snippet analysis
                    expected_severity.

Definition evaluate_dual_analysis (rel hal ans fai : Scorer)
    (log_snippet ollama_analysis cloud_analysis : string)
    : M W ComparisonEvaluation :=
  evaluate_comparison (init rel hal ans fai) log_snippet ollama_analysis
                      cloud_analysis.

End WithWorld.

Arguments Scorer W : clear implicits.
Arguments Metric W : clear implicits.
Arguments SentinelEvaluator W : clear implicits.

End Evaluator.

(* ===================================================================== *)
(** ** [sentinel/dspy_program.py] *)
(* ===================================================================== *)

Module DspyProgram.

Section WithWorld.

Context {W : Type} `{Clock W} {python : F64.Interpreter}.

(** A configured language model, seen through the one thing the
    program does with it: running the [SentinelAnalysis] signature on
    a log snippet under [dspy.context(lm=...)].  The call yields a
    prediction, whose attributes are a [dict], or raises. *)
Definition LM : Type := W → string → W * res dict.

(** [dspy.LM(...)], from its keyword arguments *)
Variable dspy_LM : list (string * option string) → LM.

(** The [dspy.Predict] module of [LLMComparator], applied to the two
    serialised analyses. *)
Variable Predict : W → string → string → W * res dict.

(** [json.dumps(d, indent=2)] *)
Variable json_dumps : dict → string.


Record SentinelAnalyzer := mkSentinelAnalyzer {
  ollama_lm : LM;
  cloud_lm : LM
}.

(** The dict literal that [forward] builds from a prediction, one
    attribute read after the other. *)
Definition structured_result (prediction : dict) : M W dict :=
  severity ← getattr prediction "severity";
  category ← getattr prediction "category";
  pattern_matched ← getattr prediction "pattern_matched";
  suggested_action ← getattr prediction "suggested_action";
  learning_candidate ← getattr prediction "learning_candidate";
  mret (list_to_map
          [ ("severity", severity);
            ("category", category);
            ("pattern_matched", pattern_matched);
            ("suggested_action", suggested_action);
            ("learning_candidate", learning_candidate) ]).

Definition forward (self : SentinelAnalyzer) (log_snippet : string)
    (use_both : bool) : M W (gmap string dict) :=
  let results : gmap string dict := ∅ in
  ollama_result ← extern "ollama" (λ w, ollama_lm self w log_snippet);
  ollama_entry ← structured_result ollama_result;
  let results := <["ollama" := ollama_entry]> results in
  if use_both then
    cloud_result ← extern "cloud" (λ w, cloud_lm self w log_snippet);
    cloud_entry ← structured_result cloud_result;
    mret (<["cloud" := cloud_entry]> results)
  else
    mret results.





End WithWorld.

Arguments LM W : clear implicits.
Arguments SentinelAnalyzer W : clear implicits.

End DspyProgram.

(* ===================================================================== *)
(** ** A small world for running the programs *)
(* ===================================================================== *)

(** The world of the examples is a counter that every external call
    advances; the clock prints a fixed instant. *)
Module Lab.

Import Evaluator.

#[export] Instance lab_clock : Clock nat := λ _, "2026-01-01T00:00:00".

Definition start : St nat := mkSt 0%nat [].

(** A scorer that always returns the same score. *)
Definition steady (score : spec_float) : Scorer nat :=
  λ w _, (S w, Ok (score, Some "ok")).

(** A scorer that always fails. *)
Definition broken (msg : string) : Scorer nat :=
  λ w _, (S w, Raise (Exception "RuntimeError" msg)).

(** A scorer that fails on one particular input and returns [score] on
    the others. *)
Definition choking (bad : string) (score : spec_float) : Scorer nat :=
  λ w tc,
    if String.eqb (input tc) bad
    then (S w, Raise (Exception "RuntimeError" "judge unavailable"))
    else (S w, Ok (score, None)).

(** A scorer whose answer depends on the world, not only on the case:
    it changes its mind after four calls. *)
Definition moody (early late : spec_float) : Scorer nat :=
  λ w _, (S w, Ok (if Nat.ltb w 4 then early else late, None)).

(** A scorer that looks at the output only: [high] for the output
    [good], [low] for any other. *)
Definition grading (good : string) (high low : spec_float) : Scorer nat :=
  λ w tc,
    (S w, Ok (if String.eqb (actual_output tc) good then high else low, None)).

Definition case (text : string) : LLMTestCase :=
  mkLLMTestCase text "Severity: ERROR" None None.

(** A backend that answers with the given attributes, and one that is
    down. *)
Definition answering (attrs : dict) : DspyProgram.LM nat :=
  λ w _, (S w, Ok attrs).

Definition down (msg : string) : DspyProgram.LM nat :=
  λ w _, (S w, Raise (Exception "ConnectionError" msg)).

Definition prediction (severity : string) : dict :=
  list_to_map
    [ ("severity", VStr severity);
      ("category", VStr "Network");
      ("pattern_matched", VStr "Connection timeout");
      ("suggested_action", VStr "Retry");
      ("learning_candidate", VBool true);
      ("reasoning", VStr "the log shows a timeout") ].

End Lab.

(* ===================================================================== *)
(** ** Vocabulary of the properties *)
(* ===================================================================== *)

Module Vocabulary.

Import Evaluator.

Section WithWorld.

Context {W : Type}.

(** What one scorer answered. *)
Definition Outcome : Type := res (spec_float * option string).

(** The scorers of a registry asked one after the other about the same
    test case, each in the world its predecessors left behind, whether
    or not a predecessor failed. *)
Fixpoint outcomes (test_case : LLMTestCase) (ms : list (string * Metric W))
    (w : W) : list (string * Metric W * Outcome) :=
  match ms with
  | [] => []
  | (name, m) :: ms' =>
      (name, m, (measure m w test_case).2)
        :: outcomes test_case ms' (measure m w test_case).1
  end.

(** The world after all of them have answered. *)
Fixpoint world_after (test_case : LLMTestCase)
    (ms : list (string * Metric W)) (w : W) : W :=
  match ms with
  | [] => w
  | (_, m) :: ms' => world_after test_case ms' (measure m w test_case).1
  end.

(** What [evaluate_analysis] and [batch_evaluate] write down for an
    outcome, and the dict that results from writing down a list of
    outcomes in turn. *)
Definition analysis_entry (m : Metric W) (o : Outcome) : dict :=
  match o with
  | Ok (score, reason) =>
      list_to_map
        [ ("score", VFloat score);
          ("threshold", VFloat (threshold m));
          ("passed", VBool (F64.leb (threshold m) score));
          ("reason", opt_str reason) ]
  | Raise e =>
      list_to_map [ ("error", VStr (str e)); ("passed", VBool false) ]
  end.

Definition batch_entry (m : Metric W) (o : Outcome) : dict :=
  match o with
  | Ok (score, _) =>
      list_to_map
        [ ("score", VFloat score);
          ("passed", VBool (F64.leb (threshold m) score)) ]
  | Raise e => list_to_map [ ("error", VStr (str e)) ]
  end.

Definition record (entry : Metric W → Outcome → dict)
    (os : list (string * Metric W * Outcome)) (acc : gmap string dict)
    : gmap string dict :=
  foldl (λ acc '(name, m, o), <[name := entry m o]> acc) acc os.

(** The cases of a batch scored one after the other. *)
Fixpoint batch_results (ms : list (string * Metric W))
    (cases : list LLMTestCase) (w : W) : list IndividualResult :=
  match cases with
  | [] => []
  | tc :: cases' =>
      mkIndividualResult tc (record batch_entry (outcomes tc ms w) ∅)
        :: batch_results ms cases' (world_after tc ms w)
  end.

Fixpoint batch_world (ms : list (string * Metric W))
    (cases : list LLMTestCase) (w : W) : W :=
  match cases with
  | [] => w
  | tc :: cases' => batch_world ms cases' (world_after tc ms w)
  end.

(** What the scorers answered over a batch: the outcomes of each case
    in turn, the next case starting in the world the previous one
    left. *)
Fixpoint batch_outcomes (ms : list (string * Metric W))
    (cases : list LLMTestCase) (w : W)
    : list (list (string * Metric W * Outcome)) :=
  match cases with
  | [] => []
  | tc :: cases' =>
      outcomes tc ms w :: batch_outcomes ms cases' (world_after tc ms w)
  end.

(** The score that the scorer registered under [name] returned for one
    case; none when it raised. *)
Fixpoint returned_score (name : string)
    (os : list (string * Metric W * Outcome)) : option spec_float :=
  match os with
  | [] => None
  | (n, _, o) :: os' =>
      if String.eqb n name
      then match o with Ok (score, _) => Some score | Raise _ => None end
      else returned_score name os'
  end.

(** The scores that scorer returned over a batch, in the order of the
    cases; a case in which it raised contributes nothing. *)
Definition returned_scores (name : string)
    (oss : list (list (string * Metric W * Outcome))) : list spec_float :=
  omap (returned_score name) oss.

(** A scorer whose answer depends on the test case only. *)
Definition deterministic (sc : Scorer W) : Prop :=
  ∀ w1 w2 tc, (sc w1 tc).2 = (sc w2 tc).2.

(** A scorer whose scores are numbers: never an infinity or a NaN. *)
Definition numeric (sc : Scorer W) : Prop :=
  ∀ w tc score reason,
    (sc w tc).2 = Ok (score, reason) → F64.is_finite score = true.

End WithWorld.

(** The two shapes of a metric entry. *)
Definition score_bearing (threshold : spec_float) (entry : dict) : Prop :=
  ∃ score,
    entry !! "score" = Some (VFloat score) ∧
    entry !! "passed" = Some (VBool (F64.leb threshold score)).

Definition error_bearing (entry : dict) : Prop :=
  ∃ msg,
    entry !! "error" = Some (VStr msg) ∧
    entry !! "passed" = Some (VBool false).

(** Exactly one of the two shapes. *)
Definition well_shaped (threshold : spec_float) (entry : dict) : Prop :=
  (score_bearing threshold entry ∧ entry !! "error" = None) ∨
  (error_bearing entry ∧ entry !! "score" = None).

(** The score a side contributes to a comparison: the one its entry
    carries, or the int [0]. *)
Definition side_score (results : gmap string dict) (name : string) : value :=
  match results !! name with
  | Some entry => default (VInt 0) (entry !! "score")
  | None => VInt 0
  end.

(** Every score written in an evaluation is a float. *)
Definition float_entries (results : gmap string dict) : Prop :=
  ∀ name entry v,
    results !! name = Some entry → entry !! "score" = Some v →
    ∃ f, v = VFloat f.

(** What the evaluation of one side contributes to the comparison of a
    metric: the float its entry carries, or the int [0] when its entry
    carries no score. *)
Definition contributes (results : gmap string dict) (name : string)
    (v : value) : Prop :=
  (∃ entry f, results !! name = Some entry
              ∧ entry !! "score" = Some (VFloat f) ∧ v = VFloat f)
  ∨ ((∀ entry, results !! name = Some entry → entry !! "score" = None)
     ∧ v = VInt 0).

(** The entry of a comparison for the scores [local] and [cloud] of the
    two sides: both scores, their difference cloud minus local, and the
    side that is strictly ahead, the local side when neither is. *)
Definition comparison_entry (local cloud : value) (entry : dict) : Prop :=
  ∃ difference cloud_wins,
    entry !! "ollama" = Some local ∧
    entry !! "cloud" = Some cloud ∧
    py_sub cloud local = Ok difference ∧
    entry !! "difference" = Some difference ∧
    py_gt cloud local = Ok cloud_wins ∧
    entry !! "better"
      = Some (VStr (if cloud_wins : bool then "cloud" else "ollama")).

(** The numeric scores one metric obtained over a batch, in the order of
    the cases; cases whose entry has no score contribute nothing. *)
Definition numeric_score (name : string) (r : IndividualResult)
    : option spec_float :=
  match ir_results r !! name with
  | Some entry =>
      match entry !! "score" with
      | Some (VFloat f) => Some f
      | _ => None
      end
  | None => None
  end.

Definition numeric_scores (name : string) (rs : list IndividualResult)
    : list spec_float :=
  omap (numeric_score name) rs.

(** The number of cases in which the entry of a metric carries a
    score. *)
Definition has_score (name : string) (r : IndividualResult) : bool :=
  match ir_results r !! name with
  | Some entry => bool_decide (is_Some (entry !! "score"))
  | None => false
  end.

Definition scored_cases (name : string) (rs : list IndividualResult) : nat :=
  length (filter (λ r, has_score name r = true) rs).

(** Sum, least and greatest of doubles, as [sum], [min] and [max] compute
    them on a list of floats. *)
Definition fmin (f0 : spec_float) (fs : list spec_float) : spec_float :=
  foldl (λ best f, if F64.ltb f best then f else best) f0 fs.

Definition fmax (f0 : spec_float) (fs : list spec_float) : spec_float :=
  foldl (λ best f, if F64.ltb best f then f else best) f0 fs.

(** The aggregate of the scores [fs] of one metric: nothing when there
    is no score. *)
Definition stats `{F64.Interpreter} (fs : list spec_float) : option dict :=
  match fs with
  | [] => None
  | f0 :: fs' =>
      let count := Z.of_nat (length fs) in
      Some (list_to_map
              [ ("mean", VFloat (F64.div (F64.float_sum fs) (F64.of_Z count)));
                ("min", VFloat (fmin f0 fs'));
                ("max", VFloat (fmax f0 fs'));
                ("count", VInt count) ])
  end.

Definition aggregate_of `{F64.Interpreter} (rs : list IndividualResult)
    (names : list string) (acc : gmap string dict) : gmap string dict :=
  foldl (λ acc name,
           match stats (numeric_scores name rs) with
           | Some d => <[name := d]> acc
           | None => acc
           end) acc names.

(** Every score written in a batch is a float. *)
Definition float_scores (rs : list IndividualResult) : Prop :=
  ∀ r name entry v,
    r ∈ rs → ir_results r !! name = Some entry →
    entry !! "score" = Some v → ∃ f, v = VFloat f.

Definition four_metrics : list string :=
  ["relevance"; "hallucination"; "answer_relevancy"; "faithfulness"].

(** The fields of a structured result and the severity levels. *)
Definition fields : list string :=
  ["severity"; "category"; "pattern_matched"; "suggested_action";
   "learning_candidate"].

Definition severity_level (v : value) : Prop :=
  v = VStr "INFO" ∨ v = VStr "WARN" ∨ v = VStr "ERROR" ∨ v = VStr "CRITICAL".

(** The first of the given attribute names that an object lacks. *)
Definition first_missing (names : list string) (obj : dict) : option string :=
  List.find (λ k, match obj !! k with Some _ => false | None => true end)
            names.

(** The attributes that [LLMComparator.compare] reads. *)
Definition judgement_fields : list string :=
  ["differences"; "agreement_score"; "recommendation"].

Definition is_nan (f : spec_float) : bool :=
  match f with S754_nan => true | _ => false end.

(** A prediction that has the five attributes, and a structured result
    that holds exactly what the prediction has under the five names. *)
Definition complete (prediction : dict) : Prop :=
  ∀ k, k ∈ fields → is_Some (prediction !! k).

Definition structured (prediction entry : dict) : Prop :=
  (∀ k, k ∈ fields → is_Some (entry !! k) ∧ entry !! k = prediction !! k)
  ∧ (∀ k, k ∉ fields → entry !! k = None).

End Vocabulary.

(* ===================================================================== *)
(** ** The scoring loops *)
(* ===================================================================== *)

Module Loops.

Import Evaluator Vocabulary.

Section WithWorld.

Context {W : Type} `{Clock W} {python : F64.Interpreter}.

Implicit Types (m : Metric W) (ms : list (string * Metric W)).
Implicit Types (acc : gmap string dict) (s : St W).
Implicit Types (os : list (string * Metric W * Outcome)).
Implicit Types (entry : Metric W → Outcome → dict).

Lemma outcomes_fst tc ms w : (outcomes tc ms w).*1 = ms.
Proof.
  revert w. induction ms as [|[name m] ms IH]; intros w; simpl; [done|].
  by rewrite IH.
Qed.

Lemma outcomes_names tc ms w : (outcomes tc ms w).*1.*1 = ms.*1.
Proof. by rewrite outcomes_fst. Qed.

Lemma record_other entry os : ∀ acc k,
  k ∉ os.*1.*1 → record entry os acc !! k = acc !! k.
Proof.
  induction os as [|[[name m] o] os IH]; intros acc k Hk; [done|].
  simpl in *. apply not_elem_of_cons in Hk as [Hne Hk].
  unfold record in *. simpl. rewrite IH by done.
  by rewrite lookup_insert_ne.
Qed.

Lemma record_lookup entry os : ∀ acc name m o,
  NoDup os.*1.*1 → (name, m, o) ∈ os →
  record entry os acc !! name = Some (entry m o).
Proof.
  induction os as [|[[name' m'] o'] os IH]; intros acc name m o Hnd Hin.
  - by apply elem_of_nil in Hin.
  - simpl in Hnd. apply NoDup_cons in Hnd as [Hfresh Hnd].
    apply elem_of_cons in Hin as [Heq|Hin].
    + inversion Heq; subst. unfold record. simpl.
      fold (record entry os (<[name':=entry m' o']> acc)).
      rewrite record_other by done. apply lookup_insert_eq.
    + unfold record. simpl. by apply IH.
Qed.

Lemma record_is_Some entry os acc k :
  k ∈ os.*1.*1 → is_Some (record entry os acc !! k).
Proof.
  revert acc. induction os as [|[[name m] o] os IH]; intros acc Hk.
  - by apply elem_of_nil in Hk.
  - simpl in Hk. unfold record. simpl.
    fold (record entry os (<[name:=entry m o]> acc)).
    destruct (decide (k ∈ os.*1.*1)) as [Hin|Hout]; [by apply IH|].
    rewrite record_other by done.
    apply elem_of_cons in Hk as [->|?]; [|done].
    rewrite lookup_insert_eq. by eexists.
Qed.

(** One turn of either scoring loop: the scorer is called once, its
    outcome is written under its name, nothing is raised. *)
Lemma evaluate_metric_run tc acc name m s :
  evaluate_metric tc acc (name, m) s =
    (mkSt (measure m (world s) tc).1 (calls s ++ [name]),
     Ok (<[name := analysis_entry m (measure m (world s) tc).2]> acc)).
Proof.
  unfold evaluate_metric, try_except, extern, mbind, M_bind, mret, M_ret.
  destruct (measure m (world s) tc) as [w' [[score reason]|e]]; done.
Qed.

Lemma batch_metric_run tc acc name m s :
  batch_metric tc acc (name, m) s =
    (mkSt (measure m (world s) tc).1 (calls s ++ [name]),
     Ok (<[name := batch_entry m (measure m (world s) tc).2]> acc)).
Proof.
  unfold batch_metric, try_except, extern, mbind, M_bind, mret, M_ret.
  destruct (measure m (world s) tc) as [w' [[score reason]|e]]; done.
Qed.

Section Scoring.

Variable entry : Metric W → Outcome → dict.
Variable body :
  LLMTestCase → gmap string dict → string * Metric W →
  M W (gmap string dict).
Hypothesis body_run : ∀ tc acc name m s,
  body tc acc (name, m) s =
    (mkSt (measure m (world s) tc).1 (calls s ++ [name]),
     Ok (<[name := entry m (measure m (world s) tc).2]> acc)).

Lemma scoring_loop tc ms : ∀ acc s,
  for_each (body tc) ms acc s =
    (mkSt (world_after tc ms (world s)) (calls s ++ ms.*1),
     Ok (record entry (outcomes tc ms (world s)) acc)).
Proof.
  induction ms as [|[name m] ms IH]; intros acc s.
  - simpl. rewrite app_nil_r. by destruct s.
  - simpl. unfold mbind, M_bind. rewrite body_run, IH. simpl.
    by rewrite <- app_assoc.
Qed.

End Scoring.

Lemma evaluate_analysis_run (self : SentinelEvaluator W) log analysis
    expected s :
  let tc := create_test_case log analysis expected
                             (Some "Installation log analysis") in
  let w' := world_after tc (metrics self) (world s) in
  evaluate_analysis self log analysis expected s =
    (mkSt w' (calls s ++ keys self),
     Ok (mkEvaluationResult tc
           (record analysis_entry (outcomes tc (metrics self) (world s)) ∅)
           (utcnow_isoformat w'))).
Proof.
  intros tc w'. unfold evaluate_analysis, mbind, M_bind.
  fold tc. rewrite (scoring_loop analysis_entry _ evaluate_metric_run).
  done.
Qed.

Lemma record_inv entry os : ∀ acc k e,
  record entry os acc !! k = Some e →
  acc !! k = Some e ∨ ∃ m o, (k, m, o) ∈ os ∧ e = entry m o.
Proof.
  induction os as [|[[name m] o] os IH]; intros acc k e Hk; [by left|].
  unfold record in Hk. simpl in Hk.
  apply IH in Hk as [Hk|(m' & o' & Hin & ->)].
  - destruct (decide (name = k)) as [->|Hne].
    + rewrite lookup_insert_eq in Hk. inversion Hk; subst.
      right. exists m, o. split; [left|done].
    + rewrite lookup_insert_ne in Hk by done. by left.
  - right. exists m', o'. split; [by right|done].
Qed.

Lemma batch_case_run (self : SentinelEvaluator W) rs tc s :
  batch_case self rs tc s =
    (mkSt (world_after tc (metrics self) (world s)) (calls s ++ keys self),
     Ok (rs ++ [mkIndividualResult tc
                  (record batch_entry
                     (outcomes tc (metrics self) (world s)) ∅)])).
Proof.
  unfold batch_case, mbind, M_bind.
  by rewrite (scoring_loop batch_entry _ batch_metric_run).
Qed.

Lemma batch_loop (self : SentinelEvaluator W) cases : ∀ rs s,
  for_each (batch_case self) cases rs s =
    (mkSt (batch_world (metrics self) cases (world s))
          (calls s ++ mjoin (replicate (length cases) (keys self))),
     Ok (rs ++ batch_results (metrics self) cases (world s))).
Proof.
  induction cases as [|tc cases IH]; intros rs s.
  - simpl. rewrite !app_nil_r. by destruct s.
  - simpl. unfold mbind, M_bind. rewrite batch_case_run, IH. simpl.
    by rewrite <- !app_assoc.
Qed.

Lemma batch_results_cases ms cases : ∀ w,
  ir_test_case <$> batch_results ms cases w = cases.
Proof.
  induction cases as [|tc cases IH]; intros w; simpl; [done|].
  by rewrite IH.
Qed.

Lemma batch_results_inv ms cases : ∀ w r,
  r ∈ batch_results ms cases w →
  ∃ w', ir_results r = record batch_entry (outcomes (ir_test_case r) ms w') ∅.
Proof.
  induction cases as [|tc cases IH]; intros w r Hr.
  - by apply elem_of_nil in Hr.
  - simpl in Hr. apply elem_of_cons in Hr as [->|Hr]; [by exists w|].
    by eapply IH.
Qed.

Lemma batch_results_float_scores ms cases w :
  float_scores (batch_results ms cases w).
Proof.
  intros r name entry v Hr Hentry Hv.
  apply batch_results_inv in Hr as [w' Hr]. rewrite Hr in Hentry.
  apply record_inv in Hentry as [Hentry|(m & o & _ & ->)].
  - by rewrite lookup_empty in Hentry.
  - destruct o as [[score reason]|e]; simpl in Hv.
    + vm_compute in Hv. inversion Hv. by eexists.
    + vm_compute in Hv. discriminate.
Qed.

End WithWorld.

End Loops.

(* ===================================================================== *)
(** ** Sums, minima and maxima of float scores *)
(* ===================================================================== *)

Module Floats.

Import Vocabulary.

Lemma py_sum_from a fs :
  foldl (λ acc x, a ← acc; py_add a x) (Ok (VFloat a)) (VFloat <$> fs)
  = Ok (VFloat (foldl F64.add a fs)).
Proof. revert a. induction fs as [|f fs IH]; intros a; [done|]. apply IH. Qed.

Lemma floats_of_floats fs : floats_of (VFloat <$> fs) = Some fs.
Proof.
  induction fs as [|f fs IH]; [done|].
  change (floats_of (VFloat <$> f :: fs))
    with (cons f <$> floats_of (VFloat <$> fs)).
  by rewrite IH.
Qed.

Lemma py_sum_floats `{F64.Interpreter} f0 fs :
  py_sum (VFloat <$> f0 :: fs) = Ok (VFloat (F64.float_sum (f0 :: fs))).
Proof.
  change (VFloat <$> f0 :: fs) with (VFloat f0 :: (VFloat <$> fs)).
  unfold py_sum. cbn [floats_of]. by rewrite floats_of_floats.
Qed.

Lemma py_min_floats f0 fs :
  py_min (VFloat <$> f0 :: fs) = Ok (VFloat (fmin f0 fs)).
Proof.
  unfold py_min, py_best, fmin. simpl. revert f0.
  induction fs as [|f fs IH]; intros f0; [done|].
  simpl. unfold F64.ltb. destruct (SFltb f f0); apply IH.
Qed.

Lemma py_max_floats f0 fs :
  py_max (VFloat <$> f0 :: fs) = Ok (VFloat (fmax f0 fs)).
Proof.
  unfold py_max, py_best, fmax. simpl. revert f0.
  induction fs as [|f fs IH]; intros f0; [done|].
  simpl. unfold F64.ltb. destruct (SFltb f0 f); apply IH.
Qed.

(** The least and the greatest are picked among the scores. *)
Lemma fmin_elem f0 fs : fmin f0 fs ∈ f0 :: fs.
Proof.
  unfold fmin. revert f0. induction fs as [|f fs IH]; intros f0; [left|].
  simpl. destruct (F64.ltb f f0).
  - right. apply IH.
  - specialize (IH f0). apply elem_of_cons in IH as [->|?];
      [left | right; by right].
Qed.

Lemma fmax_elem f0 fs : fmax f0 fs ∈ f0 :: fs.
Proof.
  unfold fmax. revert f0. induction fs as [|f fs IH]; intros f0; [left|].
  simpl. destruct (F64.ltb f0 f).
  - right. apply IH.
  - specialize (IH f0). apply elem_of_cons in IH as [->|?];
      [left | right; by right].
Qed.

(** The order of doubles is transitive. *)
Lemma lex_lt e1 m1 e2 m2 :
  match (e1 ?= e2)%Z with
  | Lt => Lt
  | Gt => Gt
  | Eq => Pos.compare_cont Eq m1 m2
  end = Lt ↔ (e1 < e2)%Z ∨ (e1 = e2 ∧ (m1 < m2)%positive).
Proof.
  change (Pos.compare_cont Eq m1 m2) with (m1 ?= m2)%positive.
  destruct (Z.compare_spec e1 e2); [|split; [lia|done]|split; [done|lia]].
  rewrite Pos.compare_lt_iff. lia.
Qed.

Lemma lex_gt e1 m1 e2 m2 :
  match (e1 ?= e2)%Z with
  | Lt => Gt
  | Gt => Lt
  | Eq => CompOpp (Pos.compare_cont Eq m1 m2)
  end = Lt ↔ (e2 < e1)%Z ∨ (e1 = e2 ∧ (m2 < m1)%positive).
Proof.
  change (Pos.compare_cont Eq m1 m2) with (m1 ?= m2)%positive.
  destruct (Z.compare_spec e1 e2); [|split; [done|lia]|split; [lia|done]].
  rewrite <- Pos.compare_antisym, Pos.compare_lt_iff. lia.
Qed.

Lemma ltb_trans a b c :
  F64.ltb a b = true → F64.ltb b c = true → F64.ltb a c = true.
Proof.
  unfold F64.ltb, SFltb.
  destruct (SFcompare a b) as [[]|] eqn:Hab; try discriminate.
  destruct (SFcompare b c) as [[]|] eqn:Hbc; try discriminate.
  intros _ _.
  assert (SFcompare a c = Some Lt) as ->; [|done].
  destruct a as [sa|sa| |sa ma ea], b as [sb|sb| |sb mb eb],
           c as [sc|sc| |sc mc ec];
    simpl in *; try discriminate;
    repeat match goal with s : bool |- _ => destruct s end;
    simpl in *; try discriminate; try done;
    injection Hab as Hab; injection Hbc as Hbc; f_equal;
    first [ apply lex_lt; apply lex_lt in Hab; apply lex_lt in Hbc; lia
          | apply lex_gt; apply lex_gt in Hab; apply lex_gt in Hbc; lia ].
Qed.

Lemma ltb_irrefl x : F64.ltb x x = false.
Proof.
  unfold F64.ltb, SFltb.
  destruct x as [sx|sx| |sx mx ex]; simpl; try done; destruct sx; simpl;
    try done; rewrite Z.compare_refl;
    change (Pos.compare_cont Eq mx mx) with (mx ?= mx)%positive;
    by rewrite Pos.compare_refl.
Qed.

Lemma ltb_asym a b : F64.ltb a b = true → F64.ltb b a = false.
Proof.
  intros Hab. destruct (F64.ltb b a) eqn:Hba; [|done].
  by rewrite <- (ltb_irrefl a), (ltb_trans a b a).
Qed.

(** No score is strictly below the least, none strictly above the
    greatest. *)
Lemma fmin_below x fs : ∀ f0,
  F64.ltb x f0 = false → F64.ltb x (fmin f0 fs) = false.
Proof.
  unfold fmin. induction fs as [|g fs IH]; intros f0 Hx; [done|].
  simpl. destruct (F64.ltb g f0) eqn:Hg; [|by apply IH].
  apply IH. destruct (F64.ltb x g) eqn:Hxg; [|done].
  by rewrite (ltb_trans x g f0) in Hx.
Qed.

Lemma fmin_least fs : ∀ f0 f,
  f ∈ f0 :: fs → F64.ltb f (fmin f0 fs) = false.
Proof.
  induction fs as [|g fs IH]; intros f0 f Hf.
  - apply list_elem_of_singleton in Hf as ->. apply ltb_irrefl.
  - change (fmin f0 (g :: fs))
      with (fmin (if F64.ltb g f0 then g else f0) fs).
    apply elem_of_cons in Hf as [->|Hf];
      [|apply elem_of_cons in Hf as [->|Hf]].
    + apply fmin_below. destruct (F64.ltb g f0) eqn:Hg;
        [by apply ltb_asym | apply ltb_irrefl].
    + apply fmin_below. destruct (F64.ltb g f0) eqn:Hg;
        [apply ltb_irrefl | done].
    + apply IH. by right.
Qed.

Lemma fmax_above x fs : ∀ f0,
  F64.ltb f0 x = false → F64.ltb (fmax f0 fs) x = false.
Proof.
  unfold fmax. induction fs as [|g fs IH]; intros f0 Hx; [done|].
  simpl. destruct (F64.ltb f0 g) eqn:Hg; [|by apply IH].
  apply IH. destruct (F64.ltb g x) eqn:Hgx; [|done].
  by rewrite (ltb_trans f0 g x) in Hx.
Qed.

Lemma fmax_greatest fs : ∀ f0 f,
  f ∈ f0 :: fs → F64.ltb (fmax f0 fs) f = false.
Proof.
  induction fs as [|g fs IH]; intros f0 f Hf.
  - apply list_elem_of_singleton in Hf as ->. apply ltb_irrefl.
  - change (fmax f0 (g :: fs))
      with (fmax (if F64.ltb f0 g then g else f0) fs).
    apply elem_of_cons in Hf as [->|Hf];
      [|apply elem_of_cons in Hf as [->|Hf]].
    + apply fmax_above. destruct (F64.ltb f0 g) eqn:Hg;
        [by apply ltb_asym | apply ltb_irrefl].
    + apply fmax_above. destruct (F64.ltb f0 g) eqn:Hg;
        [apply ltb_irrefl | done].
    + apply IH. by right.
Qed.

End Floats.

(* ===================================================================== *)
(** ** The aggregation of a batch *)
(* ===================================================================== *)

Module Aggregation.

Import Evaluator Vocabulary Loops Floats.

Lemma float_scores_tail r rs : float_scores (r :: rs) → float_scores rs.
Proof. intros Hfs r' name entry v Hr'. apply Hfs. by right. Qed.

(** An individual result either carries a float score for the metric
    or no score at all. *)
Lemma score_cases name r rs :
  float_scores (r :: rs) →
  (∃ f, get (ir_results r) name ∅ !! "score" = Some (VFloat f)
        ∧ numeric_score name r = Some f ∧ has_score name r = true)
  ∨ (get (ir_results r) name ∅ !! "score" = None
     ∧ numeric_score name r = None ∧ has_score name r = false).
Proof.
  intros Hfs. unfold get, numeric_score, has_score.
  destruct (ir_results r !! name) as [entry|] eqn:Hentry; simpl.
  - destruct (entry !! "score") as [v|] eqn:Hv.
    + destruct (Hfs r name entry v) as [f ->]; [left|done|done|].
      left. exists f. by repeat split.
    + right. by repeat split.
  - right. by rewrite lookup_empty.
Qed.

(** The comprehension of [batch_evaluate] collects exactly the numeric
    scores. *)
Lemma collect_scores_floats name rs :
  float_scores rs →
  collect_scores name rs = VFloat <$> numeric_scores name rs.
Proof.
  induction rs as [|r rs IH]; intros Hfs; [done|].
  specialize (IH (float_scores_tail _ _ Hfs)).
  unfold collect_scores, numeric_scores in *. cbn [omap list_omap].
  destruct (score_cases name r rs Hfs) as [(f & Hs & -> & _)|(Hs & -> & _)].
  - rewrite filter_cons_True by (rewrite Hs; by eexists).
    rewrite !fmap_cons. f_equal; [|done].
    unfold get at 1. by rewrite Hs.
  - rewrite filter_cons_False by (rewrite Hs; by intros [? ?]). done.
Qed.

Lemma scored_cases_length name rs :
  float_scores rs →
  scored_cases name rs = length (numeric_scores name rs).
Proof.
  induction rs as [|r rs IH]; intros Hfs; [done|].
  specialize (IH (float_scores_tail _ _ Hfs)).
  unfold scored_cases, numeric_scores in *. cbn [omap list_omap].
  destruct (score_cases name r rs Hfs) as [(f & _ & -> & Hh)|(_ & -> & Hh)].
  - rewrite filter_cons_True by done. simpl. by f_equal.
  - rewrite filter_cons_False by (rewrite Hh; done). done.
Qed.

Section WithWorld.

Context {W : Type} `{Clock W} {python : F64.Interpreter}.

(** The score in the entry of a metric is the score its scorer
    returned for that case; there is none when the scorer raised. *)
Lemma numeric_score_record name tc
    (os : list (string * Metric W * Outcome)) : ∀ acc : gmap string dict,
  NoDup os.*1.*1 → acc !! name = None →
  numeric_score name (mkIndividualResult tc (record batch_entry os acc))
  = returned_score name os.
Proof.
  induction os as [|[[n m] o] os IH]; intros acc Hnd Hacc.
  - unfold numeric_score. cbn [ir_results record foldl]. by rewrite Hacc.
  - simpl in Hnd. apply NoDup_cons in Hnd as [Hfresh Hnd].
    cbn [returned_score]. unfold record. cbn [foldl].
    fold (record batch_entry os (<[n:=batch_entry m o]> acc)).
    destruct (String.eqb_spec n name) as [->|Hne].
    + unfold numeric_score. cbn [ir_results].
      rewrite record_other by done. rewrite lookup_insert_eq.
      by destruct o as [[score reason]|e].
    + apply IH; [done|]. by rewrite lookup_insert_ne.
Qed.

Lemma has_score_record name tc
    (os : list (string * Metric W * Outcome)) : ∀ acc : gmap string dict,
  NoDup os.*1.*1 → acc !! name = None →
  has_score name (mkIndividualResult tc (record batch_entry os acc))
  = bool_decide (is_Some (returned_score name os)).
Proof.
  induction os as [|[[n m] o] os IH]; intros acc Hnd Hacc.
  - unfold has_score. cbn [ir_results record foldl]. rewrite Hacc.
    symmetry. apply bool_decide_eq_false_2. by intros [? ?].
  - simpl in Hnd. apply NoDup_cons in Hnd as [Hfresh Hnd].
    cbn [returned_score]. unfold record. cbn [foldl].
    fold (record batch_entry os (<[n:=batch_entry m o]> acc)).
    destruct (String.eqb_spec n name) as [->|Hne].
    + unfold has_score. cbn [ir_results].
      rewrite record_other by done. rewrite lookup_insert_eq.
      by destruct o as [[score reason]|e].
    + apply IH; [done|]. by rewrite lookup_insert_ne.
Qed.

(** Over a batch, case by case. *)
Lemma batch_results_returned name (ms : list (string * Metric W)) cases :
  NoDup ms.*1 →
  ∀ w,
    Forall2 (λ r os,
               numeric_score name r = returned_score name os
               ∧ has_score name r
                 = bool_decide (is_Some (returned_score name os)))
            (batch_results ms cases w) (batch_outcomes ms cases w).
Proof.
  intros Hnd. induction cases as [|tc cases IH]; intros w.
  - constructor.
  - cbn [batch_results batch_outcomes]. constructor; [|apply IH].
    split.
    + apply numeric_score_record; [by rewrite outcomes_names|done].
    + apply has_score_record; [by rewrite outcomes_names|done].
Qed.

Lemma numeric_scores_returned name (ms : list (string * Metric W)) cases w :
  NoDup ms.*1 →
  numeric_scores name (batch_results ms cases w)
  = returned_scores name (batch_outcomes ms cases w).
Proof.
  intros Hnd. unfold numeric_scores, returned_scores.
  induction (batch_results_returned name ms cases Hnd w)
    as [|r os rs oss [Hs _] _ IH]; [done|].
  cbn [omap list_omap]. by rewrite Hs, IH.
Qed.

Lemma aggregate_metric_run rs (acc : gmap string dict) name (s : St W) :
  float_scores rs →
  aggregate_metric rs acc name s =
    (s, Ok match stats (numeric_scores name rs) with
           | Some d => <[name := d]> acc
           | None => acc
           end).
Proof.
  intros Hfs. unfold aggregate_metric.
  rewrite collect_scores_floats by done.
  destruct (numeric_scores name rs) as [|f0 fs]; [done|].
  change (VFloat <$> f0 :: fs) with (VFloat f0 :: (VFloat <$> fs)).
  cbv beta iota zeta.
  change (VFloat f0 :: (VFloat <$> fs)) with (VFloat <$> f0 :: fs).
  unfold mbind, M_bind, lift.
  rewrite py_sum_floats, py_min_floats, py_max_floats.
  unfold py_truediv. simpl as_number. cbv beta iota.
  rewrite length_fmap.
  destruct (Z.eqb_spec (Z.of_nat (length (f0 :: fs))) 0) as [Hz|_];
    [simpl in Hz; lia|]. done.
Qed.

Lemma aggregate_loop rs names : ∀ (acc : gmap string dict) (s : St W),
  float_scores rs →
  for_each (aggregate_metric rs) names acc s =
    (s, Ok (aggregate_of rs names acc)).
Proof.
  induction names as [|name names IH]; intros acc s Hfs; [done|].
  simpl. unfold mbind, M_bind.
  rewrite aggregate_metric_run by done. by rewrite IH.
Qed.

Lemma aggregate_of_lookup rs names name : ∀ acc,
  acc !! name = stats (numeric_scores name rs)
  ∨ (acc !! name = None ∧ name ∈ names) →
  aggregate_of rs names acc !! name = stats (numeric_scores name rs).
Proof.
  unfold aggregate_of.
  induction names as [|n names IH]; intros acc Hacc.
  - destruct Hacc as [?|[_ Hin]]; [done|]. by apply elem_of_nil in Hin.
  - simpl. apply IH. destruct (decide (n = name)) as [->|Hne].
    + left. destruct (stats (numeric_scores name rs)) as [d|] eqn:Hd.
      * apply lookup_insert_eq.
      * by destruct Hacc as [?|[? _]].
    + assert (∀ d : dict, <[n:=d]> acc !! name = acc !! name) as Hskip
        by (intros; by rewrite lookup_insert_ne).
      destruct Hacc as [Hacc|[Hacc Hin]].
      * left. destruct (stats (numeric_scores n rs)); by rewrite ?Hskip.
      * right. apply elem_of_cons in Hin as [->|Hin]; [done|].
        split; [|done].
        destruct (stats (numeric_scores n rs)); by rewrite ?Hskip.
Qed.

Lemma batch_evaluate_run (self : SentinelEvaluator W) cases (s : St W) :
  let rs := batch_results (metrics self) cases (world s) in
  let w' := batch_world (metrics self) cases (world s) in
  batch_evaluate self cases s =
    (mkSt w' (calls s ++ mjoin (replicate (length cases) (keys self))),
     Ok (mkBatchResult rs (aggregate_of rs (keys self) ∅)
           (utcnow_isoformat w'))).
Proof.
  intros rs w'. unfold batch_evaluate, mbind, M_bind.
  rewrite batch_loop. simpl.
  rewrite aggregate_loop by apply batch_results_float_scores.
  done.
Qed.

End WithWorld.

End Aggregation.

(* ===================================================================== *)
(** ** The comparison of two evaluations *)
(* ===================================================================== *)

Module Comparison.

Import Evaluator Vocabulary Loops Floats.

Lemma get_side_score results name :
  get (get results name ∅) "score" (VInt 0) = side_score results name.
Proof.
  unfold get, side_score. destruct (results !! name); [done|].
  simpl. by rewrite lookup_empty.
Qed.

(** A side contributes the float of its entry, or the int [0] when the
    entry has no score. *)
Lemma side_score_cases results name :
  float_entries results →
  (∃ entry f, results !! name = Some entry
              ∧ entry !! "score" = Some (VFloat f)
              ∧ side_score results name = VFloat f)
  ∨ ((∀ entry, results !! name = Some entry → entry !! "score" = None)
     ∧ side_score results name = VInt 0).
Proof.
  intros Hfl. unfold side_score.
  destruct (results !! name) as [entry|] eqn:Hentry; [|by right].
  destruct (entry !! "score") as [v|] eqn:Hv.
  - destruct (Hfl name entry v) as [f ->]; [done..|].
    left. by exists entry, f.
  - right. split; [|done]. intros ? [= <-]. done.
Qed.

Lemma scores_compare (a b : value) :
  (a = VInt 0 ∨ ∃ f, a = VFloat f) → (b = VInt 0 ∨ ∃ f, b = VFloat f) →
  ∃ d g, py_sub a b = Ok d ∧ py_gt a b = Ok g.
Proof. intros [->|[f ->]] [->|[g ->]]; by eexists _, _. Qed.

(** The difference of a finite double with itself is zero. *)
Lemma sub_diag f :
  F64.is_finite f = true → F64.sub f f = F64.zero.
Proof.
  destruct f as [s|s| |s m e]; try discriminate; intros _.
  - by destruct s.
  - unfold F64.sub, SFsub. rewrite Z.sub_diag. done.
Qed.

(** The difference of an infinity or a NaN with itself is a NaN. *)
Lemma sub_self f :
  F64.sub f f = if F64.is_finite f then F64.zero else S754_nan.
Proof.
  destruct (F64.is_finite f) eqn:Hf; [by apply sub_diag|].
  destruct f as [s|s| |s m e]; try discriminate; [by destruct s|done].
Qed.

Section WithWorld.

Context {W : Type} `{Clock W} {python : F64.Interpreter}.

Lemma outcomes_inv tc (ms : list (string * Metric W)) : ∀ w name m o,
  (name, m, o) ∈ outcomes tc ms w →
  (name, m) ∈ ms ∧ ∃ w', o = (measure m w' tc).2.
Proof.
  induction ms as [|[n m'] ms IH]; intros w name m o Hin.
  - by apply elem_of_nil in Hin.
  - simpl in Hin. apply elem_of_cons in Hin as [[= -> -> ->]|Hin].
    + split; [left|by eexists].
    + apply IH in Hin as [? ?]. split; [by right|done].
Qed.

Lemma outcomes_elem tc (ms : list (string * Metric W)) : ∀ w name m,
  (name, m) ∈ ms → ∃ o, (name, m, o) ∈ outcomes tc ms w.
Proof.
  induction ms as [|[n m'] ms IH]; intros w name m Hin.
  - by apply elem_of_nil in Hin.
  - simpl. apply elem_of_cons in Hin as [[= -> ->]|Hin].
    + eexists. left.
    + destruct (IH (measure m' w tc).1 name m Hin) as [o Ho].
      exists o. by right.
Qed.

Lemma analysis_float_entries tc (ms : list (string * Metric W)) w :
  float_entries (record analysis_entry (outcomes tc ms w) ∅).
Proof.
  intros name entry v Hentry Hv.
  apply record_inv in Hentry as [Hentry|(m & o & _ & ->)].
  - by rewrite lookup_empty in Hentry.
  - destruct o as [[score reason]|e]; vm_compute in Hv.
    + inversion Hv. by eexists.
    + discriminate.
Qed.

Lemma compare_metric_run oe ce (acc : gmap string dict) name (s : St W) :
  float_entries (er_results oe) → float_entries (er_results ce) →
  ∃ entry,
    compare_metric oe ce acc name s = (s, Ok (<[name := entry]> acc))
    ∧ comparison_entry (side_score (er_results oe) name)
                       (side_score (er_results ce) name) entry.
Proof.
  intros Ho Hc. unfold compare_metric. rewrite !get_side_score.
  destruct (scores_compare (side_score (er_results ce) name)
                           (side_score (er_results oe) name))
    as (d & g & Hd & Hg).
  { destruct (side_score_cases _ name Hc) as [(?&?&?&?&->)|[_ ->]]; eauto. }
  { destruct (side_score_cases _ name Ho) as [(?&?&?&?&->)|[_ ->]]; eauto. }
  eexists. split.
  - unfold mbind, M_bind, lift. rewrite Hd, Hg. done.
  - exists d, g. by repeat split.
Qed.

Lemma compare_loop oe ce names :
  float_entries (er_results oe) → float_entries (er_results ce) →
  ∀ (acc : gmap string dict) (s : St W),
  ∃ cmp,
    for_each (compare_metric oe ce) names acc s = (s, Ok cmp)
    ∧ (∀ k, k ∉ names → cmp !! k = acc !! k)
    ∧ (∀ k, k ∈ names →
         ∃ entry, cmp !! k = Some entry
                  ∧ comparison_entry (side_score (er_results oe) k)
                                     (side_score (er_results ce) k) entry).
Proof.
  intros Ho Hc. induction names as [|n names IH]; intros acc s.
  - exists acc. split; [done|]. split; [done|].
    intros k Hk. by apply elem_of_nil in Hk.
  - destruct (compare_metric_run oe ce acc n s Ho Hc) as (e & Hrun & He).
    destruct (IH (<[n:=e]> acc) s) as (cmp & Hloop & Hout & Hin).
    exists cmp. split; [|split].
    + simpl. unfold mbind, M_bind. by rewrite Hrun.
    + intros k Hk. apply not_elem_of_cons in Hk as [Hne Hk].
      rewrite Hout by done. by rewrite lookup_insert_ne.
    + intros k Hk. destruct (decide (k ∈ names)) as [Hk'|Hk'];
        [by apply Hin|].
      apply elem_of_cons in Hk as [->|Hk]; [|done].
      exists e. rewrite Hout by done. by rewrite lookup_insert_eq.
Qed.

(** [evaluate_comparison] scores the local analysis, then the cloud
    analysis, and compares the two evaluations metric by metric. *)
Lemma evaluate_comparison_run (self : SentinelEvaluator W) log oa ca
    (s : St W) :
  ∃ s1 oe s2 r,
    evaluate_analysis self log oa None s = (s1, Ok oe)
    ∧ evaluate_analysis self log ca None s1 = (s2, Ok (cloud_evaluation r))
    ∧ evaluate_comparison self log oa ca s = (s2, Ok r)
    ∧ ollama_evaluation r = oe
    ∧ ∀ k, k ∈ keys self →
        ∃ entry, comparison r !! k = Some entry
                 ∧ comparison_entry
                     (side_score (er_results oe) k)
                     (side_score (er_results (cloud_evaluation r)) k)
                     entry.
Proof.
  unfold evaluate_comparison, mbind, M_bind.
  rewrite (evaluate_analysis_run self log oa None s).
  cbv zeta.
  set (s1 := mkSt _ _). set (oe := mkEvaluationResult _ _ _).
  rewrite (evaluate_analysis_run self log ca None s1).
  cbv zeta.
  set (s2 := mkSt _ _). set (ce := mkEvaluationResult _ _ _).
  destruct (compare_loop oe ce (keys self)) with (acc := (∅ : gmap string dict)) (s := s2)
    as (cmp & Hloop & _ & Hin).
  { apply analysis_float_entries. }
  { apply analysis_float_entries. }
  exists s1, oe, s2, (mkComparisonEvaluation oe ce cmp (utcnow_isoformat (world s2))).
  rewrite Hloop.
  split_and!;
    first [ done
          | apply (evaluate_analysis_run self log oa None s)
          | apply (evaluate_analysis_run self log ca None s1)
          | exact Hin ].
Qed.

End WithWorld.

End Comparison.

(* ===================================================================== *)
(** ** Properties of the evaluator *)
(* ===================================================================== *)

Module EvaluatorProperties.

Import Evaluator Vocabulary Loops Floats Aggregation Comparison.

Lemma four_metrics_NoDup : NoDup four_metrics.
Proof.
  unfold four_metrics.
  apply NoDup_ListNoDup.
  repeat (constructor; [simpl; intuition discriminate|]). constructor.
Qed.

Section WithWorld.

Context {W : Type} `{Clock W} {python : F64.Interpreter}.

Implicit Types (rel hal ans fai : Scorer W) (s : St W).

Lemma init_keys rel hal ans fai : keys (init rel hal ans fai) = four_metrics.
Proof. done. Qed.

(** Every name of a registry has the entry of its own outcome. *)
Lemma record_names entry tc (ms : list (string * Metric W)) w name :
  NoDup ms.*1 → name ∈ ms.*1 →
  ∃ m o, (name, m, o) ∈ outcomes tc ms w
         ∧ record entry (outcomes tc ms w) ∅ !! name = Some (entry m o).
Proof.
  intros Hnd Hin. apply list_elem_of_fmap in Hin as ([n m] & -> & Hin).
  destruct (outcomes_elem tc ms w n m Hin) as [o Ho].
  exists m, o. split; [done|].
  apply record_lookup; [by rewrite outcomes_names|done].
Qed.

(** The entries written by [evaluate_analysis] have one of the two
    shapes, never both, never neither. *)
Lemma analysis_entry_well_shaped (m : Metric W) (o : Outcome) :
  well_shaped (threshold m) (analysis_entry m o).
Proof.
  destruct o as [[score reason]|e].
  - left. split; [|done]. by exists score.
  - right. split; [|done]. by exists (str e).
Qed.

Lemma evaluate_analysis_well_shaped (self : SentinelEvaluator W) log
    analysis expected s s' r name entry :
  evaluate_analysis self log analysis expected s = (s', Ok r) →
  er_results r !! name = Some entry →
  ∃ m, (name, m) ∈ metrics self ∧ well_shaped (threshold m) entry.
Proof.
  rewrite evaluate_analysis_run. intros [= _ <-] Hentry.
  cbn [er_results] in Hentry.
  apply record_inv in Hentry as [Hentry|(m & o & Ho & ->)].
  - by rewrite lookup_empty in Hentry.
  - apply outcomes_inv in Ho as [Hm _].
    exists m. split; [done|]. apply analysis_entry_well_shaped.
Qed.

(** Isolation, for any registry (a dict: its names are distinct). *)
Lemma evaluate_analysis_isolated (self : SentinelEvaluator W) log
    analysis expected s :
  NoDup (keys self) →
  let tc := create_test_case log analysis expected
                             (Some "Installation log analysis") in
  ∃ w' r,
    evaluate_analysis self log analysis expected s
      = (mkSt w' (calls s ++ keys self), Ok r)
    ∧ (∀ name, name ∈ keys self → is_Some (er_results r !! name))
    ∧ ∀ name m o,
        (name, m, o) ∈ outcomes tc (metrics self) (world s) →
        er_results r !! name = Some (analysis_entry m o).
Proof.
  intros Hnd tc. rewrite evaluate_analysis_run. fold tc.
  eexists _, _. split; [reflexivity|]. cbn [er_results]. split.
  - intros name Hname. apply record_is_Some. by rewrite outcomes_names.
  - intros name m o Ho. apply record_lookup; [|done].
    by rewrite outcomes_names.
Qed.

Lemma batch_individual_results (self : SentinelEvaluator W)
    (cases : list LLMTestCase) s :
  NoDup (keys self) →
  ∃ s' r,
    batch_evaluate self cases s = (s', Ok r)
    ∧ ir_test_case <$> individual_results r = cases
    ∧ ∀ ir name,
        ir ∈ individual_results r → name ∈ keys self →
        ∃ (m : Metric W) o,
          ir_results ir !! name = Some (batch_entry m o).
Proof.
  intros Hnd. rewrite batch_evaluate_run. eexists _, _.
  split; [reflexivity|]. cbn [individual_results].
  split; [apply batch_results_cases|].
  intros ir name Hir Hname.
  apply batch_results_inv in Hir as [w' ->].
  destruct (record_names batch_entry (ir_test_case ir) (metrics self)
              w' name Hnd Hname) as (m & o & _ & ->).
  by exists m, o.
Qed.

(** C1. In every call of [evaluate_analysis] the four scorers are each
    asked once, in registry order, and nothing is raised to the
    caller; every metric of the registry gets the entry of its own
    outcome, whatever happened to the others: an outcome that is an
    exception is written as an entry with the error message and
    [passed = False] and no score, an outcome that is a score as an
    entry with that score and its verdict. *)
Theorem C1_metric_failure_is_isolated rel hal ans fai log analysis
    expected s :
  let self := init rel hal ans fai in
  let tc := create_test_case log analysis expected
                             (Some "Installation log analysis") in
  ∃ w' r,
    evaluate_analysis self log analysis expected s
      = (mkSt w' (calls s ++ four_metrics), Ok r)
    ∧ (∀ name, name ∈ four_metrics → is_Some (er_results r !! name))
    ∧ ∀ name m o,
        (name, m, o) ∈ outcomes tc (metrics self) (world s) →
        ∃ entry,
          er_results r !! name = Some entry
          ∧ match o with
            | Raise e =>
                entry !! "error" = Some (VStr (str e))
                ∧ entry !! "passed" = Some (VBool false)
                ∧ entry !! "score" = None
            | Ok (score, _) =>
                entry !! "score" = Some (VFloat score)
                ∧ entry !! "passed"
                  = Some (VBool (F64.leb (threshold m) score))
                ∧ entry !! "error" = None
            end.
Proof.
  intros self tc.
  destruct (evaluate_analysis_isolated self log analysis expected s
              four_metrics_NoDup) as (w' & r & Hrun & Hall & Hown).
  exists w', r. split; [exact Hrun|]. split; [exact Hall|].
  intros name m o Ho. exists (analysis_entry m o).
  split; [by apply Hown|]. by destruct o as [[score reason]|e].
Qed.

(** C9. [batch_evaluate] returns one individual result per test case,
    in the order of the cases, and each of them has an entry, with a
    score or with an error, for each of the four metrics. *)
Theorem C9_batch_individual_results rel hal ans fai
    (cases : list LLMTestCase) s :
  ∃ s' r,
    batch_evaluate (init rel hal ans fai) cases s = (s', Ok r)
    ∧ ir_test_case <$> individual_results r = cases
    ∧ length (individual_results r) = length cases
    ∧ ∀ ir name,
        ir ∈ individual_results r → name ∈ four_metrics →
        ∃ entry,
          ir_results ir !! name = Some entry
          ∧ (is_Some (entry !! "score") ∨ is_Some (entry !! "error")).
Proof.
  destruct (batch_individual_results (init rel hal ans fai) cases s
              four_metrics_NoDup) as (s' & r & Hrun & Hcases & Hall).
  exists s', r. split; [exact Hrun|]. split; [exact Hcases|]. split.
  - by rewrite <- (length_fmap ir_test_case), Hcases.
  - intros ir name Hir Hname.
    destruct (Hall ir name Hir Hname) as (m & o & ->).
    eexists. split; [done|].
    destruct o as [[score reason]|e]; [left|right]; by eexists.
Qed.

(** The aggregate of a batch, for any registry. *)
Lemma batch_aggregate (self : SentinelEvaluator W)
    (cases : list LLMTestCase) s :
  ∃ s' r,
    batch_evaluate self cases s = (s', Ok r)
    ∧ ∀ name, name ∈ keys self →
        scored_cases name (individual_results r)
          = length (numeric_scores name (individual_results r))
        ∧ aggregate_scores r !! name
          = stats (numeric_scores name (individual_results r)).
Proof.
  rewrite batch_evaluate_run. eexists _, _. split; [reflexivity|].
  cbn [individual_results aggregate_scores]. intros name Hname. split.
  - apply scored_cases_length, batch_results_float_scores.
  - apply aggregate_of_lookup. right. by rewrite lookup_empty.
Qed.

(** C6, as the code has it.  For every batch and each of the four
    metrics, let [fs] be the scores that the scorer of the metric
    returned, case after case, leaving out the cases in which it raised.
    The scores written in the individual results are exactly [fs], and
    there are as many of them as there are cases whose entry carries a
    score: a scorer that raised contributes nothing, not a zero.  A
    metric with no score has no aggregate; otherwise [count] is the
    length of [fs], [min] and [max] are two of [fs], no score is below
    [min] or above [max], and [mean] is the sum of [fs] as the
    interpreter computes it, divided by [count] in binary64. *)
Theorem C6_aggregate_over_numeric_scores rel hal ans fai
    (cases : list LLMTestCase) s :
  let self := init rel hal ans fai in
  ∃ s' r,
    batch_evaluate self cases s = (s', Ok r)
    ∧ ∀ name, name ∈ four_metrics →
        let fs :=
          returned_scores name
            (batch_outcomes (metrics self) cases (world s)) in
        numeric_scores name (individual_results r) = fs
        ∧ Forall2 (λ ir os,
                     has_score name ir
                     = bool_decide (is_Some (returned_score name os)))
                  (individual_results r)
                  (batch_outcomes (metrics self) cases (world s))
        ∧ length fs = scored_cases name (individual_results r)
        ∧ match fs with
          | [] => aggregate_scores r !! name = None
          | _ :: _ =>
              ∃ agg lo hi,
                aggregate_scores r !! name = Some agg
                ∧ agg !! "count" = Some (VInt (Z.of_nat (length fs)))
                ∧ agg !! "mean"
                  = Some (VFloat (F64.div (F64.float_sum fs)
                                    (F64.of_Z (Z.of_nat (length fs)))))
                ∧ agg !! "min" = Some (VFloat lo)
                ∧ agg !! "max" = Some (VFloat hi)
                ∧ lo ∈ fs ∧ hi ∈ fs
                ∧ ∀ f, f ∈ fs →
                    F64.ltb f lo = false ∧ F64.ltb hi f = false
          end.
Proof.
  intros self. rewrite batch_evaluate_run. eexists _, _.
  split; [reflexivity|]. intros name Hname fs.
  cbn [individual_results aggregate_scores].
  pose proof (numeric_scores_returned name (metrics self) cases (world s)
                four_metrics_NoDup) as Hfs.
  fold fs in Hfs. split; [exact Hfs|]. split.
  { eapply Forall2_impl;
      [apply (batch_results_returned name (metrics self) cases
                four_metrics_NoDup)|].
    by intros ir os [_ ?]. }
  split.
  { rewrite <- Hfs. symmetry.
    apply scored_cases_length, batch_results_float_scores. }
  rewrite aggregate_of_lookup by (right; by rewrite lookup_empty).
  rewrite Hfs. destruct fs as [|f0 fs']; [done|].
  exists (default ∅ (stats (f0 :: fs'))), (fmin f0 fs'), (fmax f0 fs').
  split_and!; try done.
  - apply fmin_elem.
  - apply fmax_elem.
  - intros f Hf. split; [by apply fmin_least | by apply fmax_greatest].
Qed.

Lemma evaluate_analysis_float_entries (self : SentinelEvaluator W) log
    analysis expected s s' r :
  evaluate_analysis self log analysis expected s = (s', Ok r) →
  float_entries (er_results r).
Proof.
  rewrite evaluate_analysis_run. intros [= _ <-].
  apply analysis_float_entries.
Qed.

(** The comparison, for any registry. *)
Lemma comparison_entries (self : SentinelEvaluator W) log oa ca s :
  ∃ s1 s2 r,
    evaluate_analysis self log oa None s = (s1, Ok (ollama_evaluation r))
    ∧ evaluate_analysis self log ca None s1 = (s2, Ok (cloud_evaluation r))
    ∧ evaluate_comparison self log oa ca s = (s2, Ok r)
    ∧ ∀ name, name ∈ keys self →
        ∃ entry local cloud,
          comparison r !! name = Some entry
          ∧ contributes (er_results (ollama_evaluation r)) name local
          ∧ contributes (er_results (cloud_evaluation r)) name cloud
          ∧ comparison_entry local cloud entry.
Proof.
  destruct (evaluate_comparison_run self log oa ca s)
    as (s1 & oe & s2 & r & Ho & Hc & Hrun & <- & Hin).
  exists s1, s2, r. split_and!; [done..|].
  intros name Hname. destruct (Hin name Hname) as (entry & Hentry & Hcmp).
  exists entry, (side_score (er_results (ollama_evaluation r)) name),
         (side_score (er_results (cloud_evaluation r)) name).
  split; [done|]. split_and!; [| |done].
  - destruct (side_score_cases (er_results (ollama_evaluation r)) name)
      as [(e & f & ? & ? & ->)|[? ->]];
      [by eapply evaluate_analysis_float_entries
      | left; by exists e, f | by right].
  - destruct (side_score_cases (er_results (cloud_evaluation r)) name)
      as [(e & f & ? & ? & ->)|[? ->]];
      [by eapply evaluate_analysis_float_entries
      | left; by exists e, f | by right].
Qed.

(** C7. [evaluate_comparison] evaluates the local analysis, then the
    cloud analysis, and for each of the four metrics writes an entry
    with: the score of each side, which is the float of that side's
    entry or the int 0 when that entry carries no score; [difference],
    the cloud score minus the local score; and [better], "cloud" when
    the cloud score is strictly greater and "ollama" otherwise. *)
Theorem C7_comparison_entry rel hal ans fai log ollama_analysis
    cloud_analysis s :
  let self := init rel hal ans fai in
  ∃ s1 s2 r,
    evaluate_analysis self log ollama_analysis None s
      = (s1, Ok (ollama_evaluation r))
    ∧ evaluate_analysis self log cloud_analysis None s1
      = (s2, Ok (cloud_evaluation r))
    ∧ evaluate_comparison self log ollama_analysis cloud_analysis s
      = (s2, Ok r)
    ∧ ∀ name, name ∈ four_metrics →
        ∃ entry local cloud difference (cloud_wins : bool),
          comparison r !! name = Some entry
          ∧ contributes (er_results (ollama_evaluation r)) name local
          ∧ contributes (er_results (cloud_evaluation r)) name cloud
          ∧ entry !! "ollama" = Some local
          ∧ entry !! "cloud" = Some cloud
          ∧ py_sub cloud local = Ok difference
          ∧ entry !! "difference" = Some difference
          ∧ py_gt cloud local = Ok cloud_wins
          ∧ entry !! "better"
            = Some (VStr (if cloud_wins then "cloud" else "ollama")).
Proof.
  intros self.
  destruct (comparison_entries self log ollama_analysis cloud_analysis s)
    as (s1 & s2 & r & Ho & Hc & Hrun & Hin).
  exists s1, s2, r. split_and!; [done..|].
  intros name Hname.
  destruct (Hin name Hname)
    as (entry & local & cloud & Hentry & Hl & Hcl & d & g & Hcmp).
  exists entry, local, cloud, d, g. by destruct_and!.
Qed.

(** C10. The comparison has an entry for each of the four metrics,
    whatever the scorers did; its [better] is "ollama" or "cloud"; and
    when neither side has a score for a metric the entry holds 0, 0,
    difference 0 and "ollama". *)
Theorem C10_comparison_is_total rel hal ans fai log ollama_analysis
    cloud_analysis s :
  ∃ s' r,
    evaluate_comparison (init rel hal ans fai) log ollama_analysis
                        cloud_analysis s = (s', Ok r)
    ∧ ∀ name, name ∈ four_metrics →
        ∃ entry,
          comparison r !! name = Some entry
          ∧ (entry !! "better" = Some (VStr "ollama")
             ∨ entry !! "better" = Some (VStr "cloud"))
          ∧ ((∀ e, er_results (ollama_evaluation r) !! name = Some e →
                   e !! "score" = None) →
             (∀ e, er_results (cloud_evaluation r) !! name = Some e →
                   e !! "score" = None) →
             entry !! "ollama" = Some (VInt 0)
             ∧ entry !! "cloud" = Some (VInt 0)
             ∧ entry !! "difference" = Some (VInt 0)
             ∧ entry !! "better" = Some (VStr "ollama")).
Proof.
  destruct (comparison_entries (init rel hal ans fai) log ollama_analysis
              cloud_analysis s) as (s1 & s2 & r & _ & _ & Hrun & Hin).
  exists s2, r. split; [exact Hrun|]. intros name Hname.
  destruct (Hin name Hname)
    as (entry & local & cloud & Hentry & Hl & Hcl & d & g & Hcmp).
  destruct Hcmp as (Ho & Hc & Hd & Hdiff & Hg & Hbetter).
  exists entry. split; [done|]. split.
  - rewrite Hbetter. destruct g; [by right|by left].
  - intros Hno_local Hno_cloud.
    destruct Hl as [(e & f & He & Hs & _)|[_ ->]];
      [by rewrite (Hno_local e He) in Hs|].
    destruct Hcl as [(e & f & He & Hs & _)|[_ ->]];
      [by rewrite (Hno_cloud e He) in Hs|].
    injection Hd as <-. injection Hg as <-. done.
Qed.

Lemma contributes_analysis (results : gmap string dict) name
    (m : Metric W) (o : Outcome) v :
  results !! name = Some (analysis_entry m o) →
  contributes results name v →
  v = match o with Ok (score, _) => VFloat score | Raise _ => VInt 0 end.
Proof.
  intros Hentry [(e & f & He & Hs & ->)|[Hno ->]].
  - rewrite Hentry in He. injection He as <-.
    destruct o as [[score reason]|err]; vm_compute in Hs; congruence.
  - specialize (Hno _ Hentry).
    destruct o as [[score reason]|err]; vm_compute in Hno; congruence.
Qed.

(** The entry of a metric after [evaluate_analysis]: that of the outcome
    of its scorer in some world. *)
Lemma evaluate_analysis_entry (self : SentinelEvaluator W) log analysis
    expected s s' r name m :
  NoDup (keys self) → (name, m) ∈ metrics self →
  evaluate_analysis self log analysis expected s = (s', Ok r) →
  ∃ w, er_results r !! name
       = Some (analysis_entry m
                 (measure m w
                    (create_test_case log analysis expected
                       (Some "Installation log analysis"))).2).
Proof.
  intros Hnd Hm Hrun.
  destruct (evaluate_analysis_isolated self log analysis expected s Hnd)
    as (w' & r' & Hrun' & _ & Hown).
  rewrite Hrun in Hrun'. injection Hrun' as _ <-.
  edestruct (outcomes_elem (W:=W)) as [o Ho]; [exact Hm|].
  pose proof (Hown _ _ _ Ho) as Hentry.
  apply outcomes_inv in Ho as [_ [w ->]]. by exists w.
Qed.

(** C8, as the code has it.  When both sides are given the same text,
    every metric whose scorer is deterministic gets [better = "ollama"].
    Its [difference] is the int 0 when the scorer raises (both sides
    then count as 0), the float 0.0 when the scorer returns a finite
    score, and a NaN when it returns an infinity or a NaN: so
    [difference == 0] holds exactly when the scorer raises or returns a
    finite score. *)
Theorem C8_identical_outputs_tie rel hal ans fai log text s name m :
  (name, m) ∈ metrics (init rel hal ans fai) →
  deterministic (measure m) →
  let outcome :=
    (measure m (world s)
       (create_test_case log text None
                         (Some "Installation log analysis"))).2 in
  ∃ s' r entry difference,
    evaluate_comparison (init rel hal ans fai) log text text s = (s', Ok r)
    ∧ comparison r !! name = Some entry
    ∧ entry !! "better" = Some (VStr "ollama")
    ∧ entry !! "difference" = Some difference
    ∧ difference
      = match outcome with
        | Raise _ => VInt 0
        | Ok (score, _) =>
            VFloat (if F64.is_finite score then F64.zero else S754_nan)
        end
    ∧ py_eq_num difference (VInt 0)
      = match outcome with
        | Raise _ => true
        | Ok (score, _) => F64.is_finite score
        end.
Proof.
  intros Hm Hdet outcome.
  destruct (comparison_entries (init rel hal ans fai) log text text s)
    as (s1 & s2 & r & Ho & Hc & Hrun & Hin).
  destruct (Hin name) as
    (entry & local & cloud & Hentry & Hl & Hcl & d & g & Hcmp).
  { apply list_elem_of_fmap. by exists (name, m). }
  destruct Hcmp as (_ & _ & Hd & Hdiff & Hg & Hbetter).
  destruct (evaluate_analysis_entry (init rel hal ans fai) _ _ _ _ _ _
              name m four_metrics_NoDup Hm Ho) as [w1 H1].
  destruct (evaluate_analysis_entry (init rel hal ans fai) _ _ _ _ _ _
              name m four_metrics_NoDup Hm Hc) as [w2 H2].
  rewrite (contributes_analysis _ _ _ _ _ H1 Hl) in Hd, Hg.
  rewrite (contributes_analysis _ _ _ _ _ H2 Hcl) in Hd, Hg.
  rewrite (Hdet w2 (world s)), (Hdet w1 (world s)) in Hd, Hg.
  fold outcome in Hd, Hg.
  exists s2, r, entry, d. split_and!; [done| done| |done| |].
  all: destruct outcome as [[score reason]|err].
  - rewrite Hbetter.
    change (Ok (F64.ltb score score) = Ok g) in Hg.
    rewrite ltb_irrefl in Hg. by injection Hg as <-.
  - rewrite Hbetter. by injection Hg as <-.
  - change (Ok (VFloat (F64.sub score score)) = Ok d) in Hd.
    rewrite sub_self in Hd. by injection Hd as <-.
  - by injection Hd as <-.
  - change (Ok (VFloat (F64.sub score score)) = Ok d) in Hd.
    rewrite sub_self in Hd. injection Hd as <-.
    by destruct (F64.is_finite score).
  - by injection Hd as <-.
Qed.

End WithWorld.

(** *** Runs of the evaluator *)

Import Lab.

(** C2, at a batch of one case whose relevance scorer fails:
    [batch_evaluate] writes the entry [{'error': ...}], with no [passed]
    key, where [evaluate_analysis] writes [passed = False]; the entry has
    neither of the two shapes. *)
Theorem C2_batch_error_entry_lacks_passed (python : F64.Interpreter) :
  let self := init (Lab.broken "judge unavailable")
                   (Lab.steady F64.lit_0_9) (Lab.steady F64.lit_0_9)
                   (Lab.steady F64.lit_0_9) in
  ∃ s' r ir entry,
    batch_evaluate self [Lab.case "Error: Failed to install package"]
                   Lab.start = (s', Ok r)
    ∧ individual_results r = [ir]
    ∧ ir_results ir !! "relevance" = Some entry
    ∧ entry !! "error" = Some (VStr "judge unavailable")
    ∧ entry !! "passed" = None
    ∧ ¬ well_shaped F64.lit_0_7 entry.
Proof.
  intros self.
  destruct python; eexists _, _, _, _;
    (split; [reflexivity|]);
    (split; [reflexivity|]); (split; [reflexivity|]);
    (split; [reflexivity|]); (split; [reflexivity|]);
    intros [[[score [Hs _]] _]|[[msg [_ Hp]] _]];
    [vm_compute in Hs | vm_compute in Hp | vm_compute in Hs
    | vm_compute in Hp]; discriminate.
Qed.

(** The same failure under [evaluate_analysis]: the entry says
    [passed = False]. *)
Example evaluate_analysis_error_entry :
  let self := init (Lab.broken "judge unavailable")
                   (Lab.steady F64.lit_0_9) (Lab.steady F64.lit_0_9)
                   (Lab.steady F64.lit_0_9) in
  ∃ s' r entry,
    evaluate_analysis self "Error: Failed to install package"
                      "Severity: ERROR" None Lab.start = (s', Ok r)
    ∧ er_results r !! "relevance" = Some entry
    ∧ entry !! "error" = Some (VStr "judge unavailable")
    ∧ entry !! "passed" = Some (VBool false).
Proof.
  intros self. eexists _, _, _.
  split; [reflexivity|].
  split; [reflexivity|]. by split.
Qed.

(** C6 fails for the mean: three cases scored 0.1 by the relevance
    metric give count 3, min 0.1, max 0.1 and mean 0.10000000000000002,
    which is above the max, whichever way the interpreter sums. *)
Lemma C6_mean_above_max :
  Forall
    (λ python : F64.Interpreter,
       let self := init (Lab.steady F64.lit_0_1)
                        (Lab.steady F64.lit_0_9) (Lab.steady F64.lit_0_9)
                        (Lab.steady F64.lit_0_9) in
       ∃ s' r agg mean hi,
         batch_evaluate self [Lab.case "a"; Lab.case "b"; Lab.case "c"]
                        Lab.start = (s', Ok r)
         ∧ aggregate_scores r !! "relevance" = Some agg
         ∧ agg !! "count" = Some (VInt 3)
         ∧ agg !! "min" = Some (VFloat F64.lit_0_1)
         ∧ agg !! "max" = Some (VFloat hi)
         ∧ agg !! "mean" = Some (VFloat mean)
         ∧ hi = F64.lit_0_1
         ∧ mean = F64.lit_0_1_succ
         ∧ F64.leb mean hi = false)
    [F64.Naive; F64.Compensated].
Proof.
  apply Forall_cons_2; [|apply Forall_cons_2; [|apply Forall_nil_2]].
  all: intros self; eexists _, _, _, _, _;
    (split; [reflexivity|]);
    (split; [reflexivity|]);
    (split; [reflexivity|]); (split; [reflexivity|]);
    (split; [reflexivity|]); (split; [reflexivity|]);
    by split.
Qed.

(** The same mean under the compensated summation of CPython 3.12. *)
Example compensated_mean_above_max :
  F64.div (F64.compensated_sum [F64.lit_0_1; F64.lit_0_1; F64.lit_0_1])
          (F64.of_Z 3) = F64.lit_0_1_succ.
Proof. vm_compute. reflexivity. Qed.

(** Why C8 asks for deterministic scorers: one that changes its mind
    between the two evaluations breaks the tie although both sides were
    given the same text. *)
Example moody_scorer_breaks_the_tie :
  let self := init (moody F64.lit_0_5 F64.lit_0_9)
                   (steady F64.lit_0_9) (steady F64.lit_0_9)
                   (steady F64.lit_0_9) in
  ∃ s' r entry,
    evaluate_comparison self "Error: Failed to install package"
                        "Severity: ERROR" "Severity: ERROR" start
      = (s', Ok r)
    ∧ comparison r !! "relevance" = Some entry
    ∧ entry !! "ollama" = Some (VFloat F64.lit_0_5)
    ∧ entry !! "cloud" = Some (VFloat F64.lit_0_9)
    ∧ entry !! "better" = Some (VStr "cloud").
Proof.
  intros self. eexists _, _, _.
  split; [reflexivity|].
  split; [reflexivity|]. by split_and!.
Qed.

(** C8 fails for a score that is not a number: a scorer that always
    answers NaN is deterministic, and with the same text on both sides
    its difference is NaN, which is not equal to 0. *)
Lemma C8_nan_difference :
  let self := init (Lab.steady S754_nan)
                   (Lab.steady F64.lit_0_9) (Lab.steady F64.lit_0_9)
                   (Lab.steady F64.lit_0_9) in
  Forall (λ item, deterministic (measure item.2)) (metrics self)
  ∧ ∃ s' r entry difference,
      evaluate_comparison self "Error: Failed to install package"
                          "Severity: ERROR" "Severity: ERROR" Lab.start
        = (s', Ok r)
      ∧ comparison r !! "relevance" = Some entry
      ∧ entry !! "difference" = Some difference
      ∧ py_eq_num difference (VInt 0) = false.
Proof.
  intros self. split.
  - repeat constructor.
  - eexists _, _, _, _.
    split; [reflexivity|].
    split; [reflexivity|]. by split.
Qed.

(** C8 at work on a finite score: the relevance scorer answers 0.1
    whatever the world, both sides get 0.1, and the difference is 0.0. *)
Lemma C8_identical_outputs_tie_witness :
  let rel := Lab.steady F64.lit_0_1 in
  let hal := Lab.choking "Error: Failed to install package" F64.lit_0_9 in
  let self := init rel hal (Lab.steady F64.lit_0_9) (Lab.steady F64.lit_0_9) in
  ∃ s' r entry difference,
    evaluate_comparison self "Error: Failed to install package"
                        "Severity: ERROR" "Severity: ERROR" Lab.start
      = (s', Ok r)
    ∧ comparison r !! "relevance" = Some entry
    ∧ entry !! "better" = Some (VStr "ollama")
    ∧ entry !! "difference" = Some difference
    ∧ difference = VFloat F64.zero
    ∧ py_eq_num difference (VInt 0) = true.
Proof.
  intros rel hal self.
  apply (C8_identical_outputs_tie rel hal (Lab.steady F64.lit_0_9)
           (Lab.steady F64.lit_0_9) "Error: Failed to install package"
           "Severity: ERROR" Lab.start "relevance"
           (mkMetric F64.lit_0_7 rel)).
  - left.
  - intros w1 w2 tc. reflexivity.
Defined.

(** The same run at the hallucination metric, whose scorer raises on
    this log for both sides: both count as the int 0. *)
Example identical_outputs_failing_scorer :
  let rel := Lab.steady F64.lit_0_1 in
  let hal := Lab.choking "Error: Failed to install package" F64.lit_0_9 in
  let self := init rel hal (Lab.steady F64.lit_0_9) (Lab.steady F64.lit_0_9) in
  ∃ s' r entry,
    evaluate_comparison self "Error: Failed to install package"
                        "Severity: ERROR" "Severity: ERROR" Lab.start
      = (s', Ok r)
    ∧ comparison r !! "hallucination" = Some entry
    ∧ entry !! "ollama" = Some (VInt 0)
    ∧ entry !! "cloud" = Some (VInt 0)
    ∧ entry !! "difference" = Some (VInt 0)
    ∧ entry !! "better" = Some (VStr "ollama").
Proof.
  intros rel hal self. eexists _, _, _.
  split; [reflexivity|].
  split; [reflexivity|]. by split_and!.
Qed.

(** An infinite score: the difference is a NaN as well, and the local
    side is still reported as the better one. *)
Example identical_outputs_infinite_score :
  let self := init (Lab.steady (S754_infinity false))
                   (Lab.steady F64.lit_0_9) (Lab.steady F64.lit_0_9)
                   (Lab.steady F64.lit_0_9) in
  ∃ s' r entry,
    evaluate_comparison self "Error: Failed to install package"
                        "Severity: ERROR" "Severity: ERROR" Lab.start
      = (s', Ok r)
    ∧ comparison r !! "relevance" = Some entry
    ∧ entry !! "difference" = Some (VFloat S754_nan)
    ∧ py_eq_num (VFloat S754_nan) (VInt 0) = false
    ∧ entry !! "better" = Some (VStr "ollama").
Proof.
  intros self. eexists _, _, _.
  split; [reflexivity|].
  split; [reflexivity|]. by split_and!.
Qed.

End EvaluatorProperties.

(* ===================================================================== *)
(** ** Properties of the dual analysis *)
(* ===================================================================== *)

Module DspyProperties.

Import DspyProgram Vocabulary.

#[local] Instance complete_dec (p : dict) : Decision (complete p).
Proof.
  refine (cast_if (decide (Forall (λ k, is_Some (p !! k)) fields)));
    unfold complete; by rewrite ?Forall_forall in *.
Defined.

Section WithWorld.

Context {W : Type} `{Clock W} {python : F64.Interpreter}.

Implicit Types (self : SentinelAnalyzer W) (s : St W) (p : dict).

(** Reading the five attributes: all there, and the dict is built; one
    missing, and [AttributeError] is raised.  The state is untouched. *)
Lemma structured_result_complete p s :
  complete p →
  ∃ entry, structured_result p s = (s, Ok entry) ∧ structured p entry.
Proof.
  intros Hp.
  destruct (Hp "severity") as [v1 H1]; [set_solver|].
  destruct (Hp "category") as [v2 H2]; [set_solver|].
  destruct (Hp "pattern_matched") as [v3 H3]; [set_solver|].
  destruct (Hp "suggested_action") as [v4 H4]; [set_solver|].
  destruct (Hp "learning_candidate") as [v5 H5]; [set_solver|].
  eexists. split.
  - unfold structured_result, getattr, lift, mbind, M_bind.
    rewrite H1, H2, H3, H4, H5. reflexivity.
  - split.
    + intros k Hk. unfold fields in Hk.
      repeat (apply elem_of_cons in Hk as [->|Hk]);
        [by split; [eexists|]..|by apply elem_of_nil in Hk].
    + intros k Hk. unfold fields in Hk.
      repeat (apply not_elem_of_cons in Hk as [? Hk]).
      cbn [list_to_map foldr curry fst snd uncurry].
      by rewrite !lookup_insert_ne, lookup_empty.
Qed.

Lemma structured_result_missing p s :
  ¬ complete p → ∃ e, structured_result p s = (s, Raise e).
Proof.
  intros Hp. unfold structured_result, getattr, lift, mbind, M_bind.
  destruct (p !! "severity") as [v1|] eqn:H1; [|by eexists].
  destruct (p !! "category") as [v2|] eqn:H2; [|by eexists].
  destruct (p !! "pattern_matched") as [v3|] eqn:H3; [|by eexists].
  destruct (p !! "suggested_action") as [v4|] eqn:H4; [|by eexists].
  destruct (p !! "learning_candidate") as [v5|] eqn:H5; [|by eexists].
  destruct Hp. intros k Hk. unfold fields in Hk.
  repeat (apply elem_of_cons in Hk as [->|Hk]);
    [by eexists..|by apply elem_of_nil in Hk].
Qed.

(** The four ways [forward] can go. *)
Lemma forward_local_raises self log use_both s e :
  (ollama_lm self (world s) log).2 = Raise e →
  forward self log use_both s
    = (mkSt (ollama_lm self (world s) log).1 (calls s ++ ["ollama"]), Raise e).
Proof.
  intros Ho. unfold forward, extern, mbind, M_bind.
  destruct (ollama_lm self (world s) log) as [w1 o1]. simpl in Ho.
  by subst.
Qed.

Lemma forward_local_incomplete self log use_both s p :
  (ollama_lm self (world s) log).2 = Ok p → ¬ complete p →
  ∃ e, forward self log use_both s
       = (mkSt (ollama_lm self (world s) log).1 (calls s ++ ["ollama"]),
          Raise e).
Proof.
  intros Ho Hp. unfold forward, extern, mbind, M_bind.
  destruct (ollama_lm self (world s) log) as [w1 o1]. simpl in Ho. subst.
  destruct (structured_result_missing p (mkSt w1 (calls s ++ ["ollama"])) Hp)
    as [e ->].
  by exists e.
Qed.

Lemma forward_local_only self log s p :
  (ollama_lm self (world s) log).2 = Ok p → complete p →
  ∃ entry,
    forward self log false s
      = (mkSt (ollama_lm self (world s) log).1 (calls s ++ ["ollama"]),
         Ok (<["ollama" := entry]> ∅))
    ∧ structured p entry.
Proof.
  intros Ho Hp. unfold forward, extern, mbind, M_bind.
  destruct (ollama_lm self (world s) log) as [w1 o1]. simpl in Ho. subst.
  destruct (structured_result_complete p (mkSt w1 (calls s ++ ["ollama"])) Hp)
    as (entry & -> & Hentry).
  by exists entry.
Qed.

Lemma forward_both self log s p1 :
  (ollama_lm self (world s) log).2 = Ok p1 → complete p1 →
  let w1 := (ollama_lm self (world s) log).1 in
  let s2 := mkSt (cloud_lm self w1 log).1 (calls s ++ ["ollama"; "cloud"]) in
  match (cloud_lm self w1 log).2 with
  | Raise e => forward self log true s = (s2, Raise e)
  | Ok p2 =>
      if decide (complete p2) then
        ∃ e1 e2,
          forward self log true s
            = (s2, Ok (<["cloud" := e2]> (<["ollama" := e1]> ∅)))
          ∧ structured p1 e1 ∧ structured p2 e2
      else ∃ e, forward self log true s = (s2, Raise e)
  end.
Proof.
  intros Ho Hp. unfold forward, extern, mbind, M_bind.
  destruct (ollama_lm self (world s) log) as [w1 o1]. simpl in Ho. subst.
  destruct (structured_result_complete p1 (mkSt w1 (calls s ++ ["ollama"])) Hp)
    as (e1 & -> & He1).
  cbn [world calls fst snd]. rewrite <- app_assoc. cbn [app].
  destruct (cloud_lm self w1 log) as [w2 [p2|e]]; cbn [fst snd]; [|done].
  destruct (decide (complete p2)) as [Hp2|Hp2].
  - destruct (structured_result_complete p2
                (mkSt w2 (calls s ++ ["ollama"; "cloud"])) Hp2)
      as (e2 & -> & He2).
    by exists e1, e2.
  - destruct (structured_result_missing p2
                (mkSt w2 (calls s ++ ["ollama"; "cloud"])) Hp2) as [e ->].
    by exists e.
Qed.

(** What a call of [forward] that returns has done and returns. *)
Lemma forward_ok self log use_both s s' r :
  forward self log use_both s = (s', Ok r) →
  let w1 := (ollama_lm self (world s) log).1 in
  ∃ p1 e1,
    (ollama_lm self (world s) log).2 = Ok p1
    ∧ structured p1 e1
    ∧ r !! "ollama" = Some e1
    ∧ r !! "comparison" = None
    ∧ if use_both then
        ∃ p2 e2,
          (cloud_lm self w1 log).2 = Ok p2
          ∧ structured p2 e2
          ∧ r !! "cloud" = Some e2
          ∧ s' = mkSt (cloud_lm self w1 log).1
                      (calls s ++ ["ollama"; "cloud"])
      else
        r !! "cloud" = None
        ∧ s' = mkSt w1 (calls s ++ ["ollama"]).
Proof.
  intros Hrun w1.
  destruct (ollama_lm self (world s) log).2 as [p1|e] eqn:Ho.
  2: { rewrite (forward_local_raises _ _ _ _ _ Ho) in Hrun. discriminate. }
  destruct (decide (complete p1)) as [Hp1|Hp1].
  2: { destruct (forward_local_incomplete _ _ use_both _ _ Ho Hp1) as [e He].
       rewrite He in Hrun. discriminate. }
  destruct use_both.
  - pose proof (forward_both self log s p1 Ho Hp1) as Hboth.
    cbv zeta in Hboth. fold w1 in Hboth.
    destruct (cloud_lm self w1 log).2 as [p2|e] eqn:Hc.
    + destruct (decide (complete p2)) as [Hp2|Hp2].
      * destruct Hboth as (e1 & e2 & Hf & He1 & He2).
        rewrite Hf in Hrun. injection Hrun as <- <-.
        exists p1, e1. split_and!; [done..|]. by exists p2, e2.
      * destruct Hboth as [e Hf]. rewrite Hf in Hrun. discriminate.
    + rewrite Hboth in Hrun. discriminate.
  - destruct (forward_local_only self log s p1 Ho Hp1) as (e1 & Hf & He1).
    rewrite Hf in Hrun. injection Hrun as <- <-.
    exists p1, e1. by split_and!.
Qed.

(** Which backends a call of [forward] reaches, whether it returns or
    raises. *)
Lemma forward_calls self log use_both s :
  ∃ rest,
    calls (forward self log use_both s).1 = calls s ++ "ollama" :: rest
    ∧ (rest = [] ∨ (rest = ["cloud"] ∧ use_both = true)).
Proof.
  destruct (ollama_lm self (world s) log).2 as [p1|e] eqn:Ho.
  2: { rewrite (forward_local_raises _ _ _ _ _ Ho). exists []. by split; [|left]. }
  destruct (decide (complete p1)) as [Hp1|Hp1].
  2: { destruct (forward_local_incomplete _ _ use_both _ _ Ho Hp1) as [e ->].
       exists []. by split; [|left]. }
  destruct use_both.
  - pose proof (forward_both self log s p1 Ho Hp1) as Hboth.
    cbv zeta in Hboth. exists ["cloud"]. split; [|by right].
    destruct (cloud_lm self _ log).2 as [p2|e].
    + destruct (decide (complete p2)).
      * by destruct Hboth as (e1 & e2 & -> & _).
      * by destruct Hboth as [e ->].
    + by rewrite Hboth.
  - destruct (forward_local_only self log s p1 Ho Hp1) as (e1 & -> & _).
    exists []. by split; [|left].
Qed.


(** C3, as the code has it.  [forward] raises when the call of a backend
    raises and when the prediction lacks one of the five attributes; a
    structured result that it returns has exactly the five fields, each
    holding what the backend put under that name, whatever that is. *)
Theorem C3_extraction_passes_fields_through self log use_both s :
  let o1 := ollama_lm self (world s) log in
  let o2 := cloud_lm self o1.1 log in
  let run := forward self log use_both s in
  (∀ e, o1.2 = Raise e → run.2 = Raise e)
  ∧ (∀ p1, o1.2 = Ok p1 → ¬ complete p1 → ∃ e, run.2 = Raise e)
  ∧ (∀ p1, o1.2 = Ok p1 → complete p1 → use_both = true →
       (∀ e, o2.2 = Raise e → run.2 = Raise e)
       ∧ (∀ p2, o2.2 = Ok p2 → ¬ complete p2 → ∃ e, run.2 = Raise e))
  ∧ (∀ r, run.2 = Ok r →
       ∃ p1 e1,
         o1.2 = Ok p1 ∧ r !! "ollama" = Some e1 ∧ structured p1 e1
         ∧ if use_both
           then ∃ p2 e2,
                  o2.2 = Ok p2 ∧ r !! "cloud" = Some e2 ∧ structured p2 e2
           else r !! "cloud" = None).
Proof.
  intros o1 o2 run. split_and!.
  - intros e Ho. unfold run. by rewrite (forward_local_raises _ _ _ _ _ Ho).
  - intros p1 Ho Hp1.
    destruct (forward_local_incomplete _ _ use_both _ _ Ho Hp1) as [e He].
    exists e. unfold run. by rewrite He.
  - intros p1 Ho Hp1 ->.
    pose proof (forward_both self log s p1 Ho Hp1) as Hboth.
    cbv zeta in Hboth. fold o1 o2 in Hboth. split.
    + intros e Hc. rewrite Hc in Hboth. unfold run. by rewrite Hboth.
    + intros p2 Hc Hp2. rewrite Hc in Hboth.
      rewrite decide_False in Hboth by done.
      destruct Hboth as [e He]. exists e. unfold run. by rewrite He.
  - intros r Hr. destruct run as [s' rr] eqn:Hrun. simpl in Hr. subst rr.
    destruct (forward_ok _ _ _ _ _ _ Hrun) as (p1 & e1 & Ho & He1 & Hl & _ & Hc).
    exists p1, e1. split_and!; [done..|].
    destruct use_both.
    + destruct Hc as (p2 & e2 & ? & ? & ? & _). by exists p2, e2.
    + by destruct Hc.
Qed.

(** C4, as the code has it.  With [use_both] the two extractions run in
    sequence, the local one first.  When the local extraction fails the
    call fails there and the cloud backend is not reached; when it
    succeeds the cloud backend is reached, and a failure of the cloud
    extraction fails the whole call; only when both succeed are both
    results returned. *)
Theorem C4_extractions_run_in_sequence self log s :
  let o1 := ollama_lm self (world s) log in
  let o2 := cloud_lm self o1.1 log in
  let run := forward self log true s in
  (∀ e, o1.2 = Raise e →
        run = (mkSt o1.1 (calls s ++ ["ollama"]), Raise e))
  ∧ (∀ p1, o1.2 = Ok p1 → ¬ complete p1 →
        ∃ e, run = (mkSt o1.1 (calls s ++ ["ollama"]), Raise e))
  ∧ (∀ p1, o1.2 = Ok p1 → complete p1 →
        calls run.1 = calls s ++ ["ollama"; "cloud"]
        ∧ (∀ e, o2.2 = Raise e → run.2 = Raise e)
        ∧ (∀ p2, o2.2 = Ok p2 → ¬ complete p2 → ∃ e, run.2 = Raise e)
        ∧ (∀ p2, o2.2 = Ok p2 → complete p2 →
             ∃ r, run.2 = Ok r
                  ∧ is_Some (r !! "ollama") ∧ is_Some (r !! "cloud"))).
Proof.
  intros o1 o2 run. split_and!.
  - intros e Ho. apply (forward_local_raises _ _ _ _ _ Ho).
  - intros p1 Ho Hp1. apply (forward_local_incomplete _ _ _ _ _ Ho Hp1).
  - intros p1 Ho Hp1.
    pose proof (forward_both self log s p1 Ho Hp1) as Hboth.
    cbv zeta in Hboth. fold o1 o2 run in Hboth.
    destruct o2.2 as [p2|e] eqn:Hc.
    + destruct (decide (complete p2)) as [Hp2|Hp2].
      * destruct Hboth as (e1 & e2 & -> & _ & _).
        split_and!; [done|done| |].
        -- intros p2' [= <-] Hno. by destruct Hno.
        -- intros _ _ _. eexists. split; [done|].
           split; by eexists.
      * destruct Hboth as [e ->].
        split_and!; [done|done| |].
        -- intros. by exists e.
        -- intros p2' [= <-] Hyes. by destruct Hp2.
    + rewrite Hboth. split_and!; [done| |done|done].
      by intros ? [= <-].
Qed.

Section Comparing.

Variable dspy_LM : list (string * option string) → LM W.
Variable Predict : W → string → string → W * res dict.
Variable json_dumps : dict → string.



End Comparing.

End WithWorld.

(** *** Runs of the dual analysis *)

Import Lab.

(** C3 fails for the severity: a backend that answers "HIGH" is passed
    through, and "HIGH" is none of the four levels. *)
Lemma C3_severity_is_not_checked :
  let self := mkSentinelAnalyzer (answering (prediction "HIGH"))
                                 (down "no route to host") in
  ∃ s' r entry,
    forward self "Warning: Connection timeout" false start = (s', Ok r)
    ∧ r !! "ollama" = Some entry
    ∧ entry !! "severity" = Some (VStr "HIGH")
    ∧ ¬ severity_level (VStr "HIGH").
Proof.
  intros self.
  destruct (forward_local_only self "Warning: Connection timeout" start
              (prediction "HIGH")) as (entry & Hrun & Hfields & _);
    [reflexivity| |].
  { intros k Hk. unfold fields in Hk.
    repeat (apply elem_of_cons in Hk as [->|Hk]); [by eexists..|].
    by apply elem_of_nil in Hk. }
  eexists _, _, entry. split; [exact Hrun|].
  split; [apply lookup_insert_eq|]. split.
  - destruct (Hfields "severity") as [_ ->]; [left|reflexivity].
  - intros [?|[?|[?|?]]]; discriminate.
Qed.

(** C4 fails when the local backend is down: the call raises after the
    local call, and the cloud backend, which would have answered, is
    never reached. *)
Lemma C4_local_failure_stops_cloud :
  let self := mkSentinelAnalyzer (down "connection refused")
                                 (answering (prediction "ERROR")) in
  ∃ s' e,
    forward self "Warning: Connection timeout" true start = (s', Raise e)
    ∧ calls s' = ["ollama"]
    ∧ "cloud" ∉ calls s'.
Proof.
  intros self. eexists _, _.
  split; [by apply (forward_local_raises self _ true start)|].
  split; [reflexivity|].
  cbn [calls]. intros Hin. apply list_elem_of_singleton in Hin.
  discriminate.
Qed.


End DspyProperties.

(* ===================================================================== *)
(** ** Further properties of the evaluator *)
(* ===================================================================== *)

Module EvaluatorExtras.

Import Evaluator Vocabulary Loops Floats Aggregation Comparison.
Import EvaluatorProperties.

(** Comparing in the other direction gives the opposite answer. *)
Lemma compare_antisym a b : SFcompare b a = CompOpp <$> SFcompare a b.
Proof.
  destruct a as [sa|sa| |sa ma ea], b as [sb|sb| |sb mb eb]; simpl;
    try done;
    repeat match goal with s : bool |- _ => destruct s end; simpl; try done;
    rewrite (Z.compare_antisym ea eb); destruct (ea ?= eb)%Z; simpl;
    try done;
    change (Pos.compare_cont Eq mb ma) with (mb ?= ma)%positive;
    change (Pos.compare_cont Eq ma mb) with (ma ?= mb)%positive;
    rewrite (Pos.compare_antisym ma mb); by destruct (ma ?= mb)%positive.
Qed.

(** [t <= x] is the negation of [x < t], unless one of them is a NaN. *)
Lemma leb_not_ltb t x :
  is_nan t = false →
  F64.leb t x = if is_nan x then false else negb (F64.ltb x t).
Proof.
  intros Ht. unfold F64.leb, F64.ltb, SFleb, SFltb.
  rewrite (compare_antisym t x).
  destruct (SFcompare t x) as [[]|] eqn:Hc; simpl;
    destruct t as [st|st| |st mt et]; try discriminate;
    destruct x as [sx|sx| |sx mx ex]; simpl in *; try done;
    discriminate.
Qed.

Lemma aggregate_of_other `{F64.Interpreter} rs names (name : string) :
  ∀ acc,
  name ∉ names → aggregate_of rs names acc !! name = acc !! name.
Proof.
  unfold aggregate_of.
  induction names as [|n names IH]; intros acc Hname; [done|].
  apply not_elem_of_cons in Hname as [Hne Hname]. simpl.
  rewrite IH by done.
  destruct (stats (numeric_scores n rs)); [|done].
  by rewrite lookup_insert_ne.
Qed.

Lemma numeric_scores_length name rs :
  (length (numeric_scores name rs) ≤ length rs)%nat.
Proof.
  unfold numeric_scores. induction rs as [|r rs IH]; [done|].
  cbn [omap list_omap]. destruct (numeric_score name r); simpl; lia.
Qed.

Section WithWorld.

Context {W : Type} `{Clock W} {python : F64.Interpreter}.

Implicit Types (rel hal ans fai : Scorer W) (s : St W).

Lemma init_threshold rel hal ans fai name (m : Metric W) :
  (name, m) ∈ metrics (init rel hal ans fai) → is_nan (threshold m) = false.
Proof.
  intros Hm. unfold init in Hm. cbn [metrics] in Hm.
  repeat (apply elem_of_cons in Hm as [[= -> ->]|Hm]; [done|]).
  by apply elem_of_nil in Hm.
Qed.

Lemma batch_results_app (ms : list (string * Metric W)) c1 : ∀ c2 w,
  batch_results ms (c1 ++ c2) w
  = batch_results ms c1 w ++ batch_results ms c2 (batch_world ms c1 w).
Proof.
  induction c1 as [|tc c1 IH]; intros c2 w; [done|].
  simpl. by rewrite IH.
Qed.

Lemma batch_world_app (ms : list (string * Metric W)) c1 : ∀ c2 w,
  batch_world ms (c1 ++ c2) w = batch_world ms c2 (batch_world ms c1 w).
Proof.
  induction c1 as [|tc c1 IH]; intros c2 w; [done|]. simpl. by rewrite IH.
Qed.

(** X1.  The results of [evaluate_analysis] have an entry under the four
    metric names and under no other key; an entry has either exactly the
    keys score, threshold, passed and reason, with the threshold of its
    metric, or exactly the keys error and passed. *)
Theorem evaluate_analysis_result_keys rel hal ans fai log analysis
    expected s :
  let self := init rel hal ans fai in
  ∃ s' r,
    evaluate_analysis self log analysis expected s = (s', Ok r)
    ∧ (∀ k, is_Some (er_results r !! k) ↔ k ∈ four_metrics)
    ∧ ∀ name entry,
        er_results r !! name = Some entry →
        ∃ m, (name, m) ∈ metrics self
             ∧ ((dom entry
                 = ({["score"; "threshold"; "passed"; "reason"]} : gset string)
                 ∧ entry !! "threshold" = Some (VFloat (threshold m)))
                ∨ dom entry = ({["error"; "passed"]} : gset string)).
Proof.
  intros self. rewrite evaluate_analysis_run. eexists _, _.
  split; [reflexivity|]. cbn [er_results]. split.
  - intros k. split.
    + intros [e He]. apply record_inv in He as [He|(m & o & Ho & _)].
      * by rewrite lookup_empty in He.
      * apply outcomes_inv in Ho as [Hm _].
        change four_metrics with (metrics self).*1.
        apply list_elem_of_fmap. by exists (k, m).
    + intros Hk. apply record_is_Some. by rewrite outcomes_names.
  - intros name entry He. apply record_inv in He as [He|(m & o & Ho & ->)].
    + by rewrite lookup_empty in He.
    + apply outcomes_inv in Ho as [Hm _]. exists m. split; [done|].
      destruct o as [[score reason]|e]; [left|right]; by vm_compute.
Qed.

(** X2.  The verdict of a scored entry: [passed] is false exactly when
    the score is strictly below the threshold of its metric, or is a
    NaN; a score equal to the threshold passes. *)
Theorem passed_unless_below_threshold rel hal ans fai log analysis
    expected s :
  let self := init rel hal ans fai in
  let tc := create_test_case log analysis expected
                             (Some "Installation log analysis") in
  ∃ s' r,
    evaluate_analysis self log analysis expected s = (s', Ok r)
    ∧ ∀ name m score reason,
        (name, m, Ok (score, reason))
          ∈ outcomes tc (metrics self) (world s) →
        ∃ entry,
          er_results r !! name = Some entry
          ∧ entry !! "score" = Some (VFloat score)
          ∧ entry !! "passed"
            = Some (VBool (if is_nan score then false
                           else negb (F64.ltb score (threshold m)))).
Proof.
  intros self tc.
  destruct (evaluate_analysis_isolated self log analysis expected s
              four_metrics_NoDup) as (w' & r & Hrun & _ & Hown).
  exists (mkSt w' (calls s ++ keys self)), r. split; [exact Hrun|].
  intros name m score reason Ho. eexists. split; [by apply Hown|].
  split; [done|]. apply outcomes_inv in Ho as [Hm _].
  cbn [analysis_entry]. rewrite <- leb_not_ltb; [done|].
  by eapply init_threshold.
Qed.

(** X3.  An empty batch: no scorer is asked, the world is left as it
    was, and the result has no individual result and no aggregate, for
    any registry. *)
Theorem batch_evaluate_empty (self : SentinelEvaluator W) s :
  ∃ r,
    batch_evaluate self [] s = (s, Ok r)
    ∧ individual_results r = []
    ∧ aggregate_scores r = ∅.
Proof.
  destruct s as [w cs]. rewrite batch_evaluate_run.
  cbn [batch_results batch_world length replicate].
  eexists. split_and!.
  - cbn [world calls mjoin list_join]. rewrite app_nil_r. reflexivity.
  - done.
  - cbn [aggregate_scores]. unfold aggregate_of.
    induction (keys self) as [|n names IH]; [done|]. exact IH.
Qed.

(** X4.  In a batch every scorer is asked exactly once per case, case
    after case and in registry order within a case; nothing is asked
    twice, nothing is skipped after a failure. *)
Theorem batch_evaluate_calls rel hal ans fai (cases : list LLMTestCase) s :
  ∃ s' r,
    batch_evaluate (init rel hal ans fai) cases s = (s', Ok r)
    ∧ calls s' = calls s ++ mjoin (replicate (length cases) four_metrics)
    ∧ length (calls s') = (length (calls s) + 4 * length cases)%nat.
Proof.
  rewrite batch_evaluate_run. eexists _, _. split; [reflexivity|].
  cbn [calls]. split; [done|].
  rewrite length_app. f_equal.
  assert (∀ n (l : list string),
            length (mjoin (replicate n l)) = (n * length l)%nat) as Hlen.
  { intros n l. induction n as [|n IH]; [done|].
    cbn [replicate].
    change (mjoin (l :: replicate n l)) with (l ++ mjoin (replicate n l)).
    rewrite length_app, IH. simpl. lia. }
  rewrite Hlen. change (keys (init rel hal ans fai)) with four_metrics.
  simpl. lia.
Qed.

(** X5.  [evaluate_comparison] evaluates the local analysis first, from
    the state it is called in, and the cloud analysis next, from the
    state the local evaluation left; each evaluation asks the four
    scorers, eight calls in all; both test cases carry the same log, no
    expected output and the fixed context; and the comparison has an
    entry under the four metric names and under no other key. *)
Theorem evaluate_comparison_order rel hal ans fai log ollama_analysis
    cloud_analysis s :
  let self := init rel hal ans fai in
  ∃ s1 s' r,
    evaluate_analysis self log ollama_analysis None s
      = (s1, Ok (ollama_evaluation r))
    ∧ evaluate_analysis self log cloud_analysis None s1
      = (s', Ok (cloud_evaluation r))
    ∧ evaluate_comparison self log ollama_analysis cloud_analysis s
      = (s', Ok r)
    ∧ calls s1 = calls s ++ four_metrics
    ∧ calls s' = calls s1 ++ four_metrics
    ∧ calls s' = calls s ++ four_metrics ++ four_metrics
    ∧ er_test_case (ollama_evaluation r)
      = mkLLMTestCase log ollama_analysis None
                      (Some "Installation log analysis")
    ∧ er_test_case (cloud_evaluation r)
      = mkLLMTestCase log cloud_analysis None
                      (Some "Installation log analysis")
    ∧ ∀ k, is_Some (comparison r !! k) ↔ k ∈ four_metrics.
Proof.
  intros self.
  unfold evaluate_comparison, mbind, M_bind.
  rewrite (evaluate_analysis_run self log ollama_analysis None s).
  cbv zeta. set (s1 := mkSt _ _). set (oe := mkEvaluationResult _ _ _).
  rewrite (evaluate_analysis_run self log cloud_analysis None s1).
  cbv zeta. set (s2 := mkSt _ _). set (ce := mkEvaluationResult _ _ _).
  destruct (compare_loop (W:=W) oe ce (keys self)
              (analysis_float_entries _ _ _) (analysis_float_entries _ _ _)
              ∅ s2) as (cmp & Hloop & Hout & Hin).
  rewrite Hloop.
  exists s1, s2, (mkComparisonEvaluation oe ce cmp (utcnow_isoformat (world s2))).
  cbn [ollama_evaluation cloud_evaluation comparison er_test_case].
  split; [reflexivity|].
  split; [apply (evaluate_analysis_run self log cloud_analysis None s1)|].
  split; [reflexivity|]. split; [done|]. split; [done|].
  split; [unfold s2, s1; cbn [calls]; by rewrite <- app_assoc|].
  split; [done|]. split; [done|].
  intros k. split.
  - intros Hk. destruct (decide (k ∈ keys self)) as [|Hno]; [done|].
    rewrite (Hout k Hno), lookup_empty in Hk. by destruct Hk.
  - intros Hk. destruct (Hin k Hk) as (e & -> & _). by eexists.
Qed.

(** X6.  A batch of the one test case that [evaluate_analysis] builds,
    run from the same state, asks the same scorers, ends in the same
    state, and writes for every metric an entry with the same score and
    verdict, or the same error message; the entries of the batch never
    hold a threshold or a reason. *)
Theorem batch_of_one_agrees_with_single rel hal ans fai log analysis
    expected s :
  let self := init rel hal ans fai in
  let tc := create_test_case log analysis expected
                             (Some "Installation log analysis") in
  ∃ s' single batch ir,
    evaluate_analysis self log analysis expected s = (s', Ok single)
    ∧ batch_evaluate self [tc] s = (s', Ok batch)
    ∧ individual_results batch = [ir]
    ∧ ∀ name, name ∈ four_metrics →
        ∃ e1 e2,
          er_results single !! name = Some e1
          ∧ ir_results ir !! name = Some e2
          ∧ e2 !! "score" = e1 !! "score"
          ∧ e2 !! "error" = e1 !! "error"
          ∧ (is_Some (e1 !! "score") → e2 !! "passed" = e1 !! "passed")
          ∧ e2 !! "threshold" = None
          ∧ e2 !! "reason" = None.
Proof.
  intros self tc. eexists _, _, _, _. split_and!.
  - apply evaluate_analysis_run.
  - rewrite batch_evaluate_run.
    cbn [length replicate mjoin list_join batch_world batch_results].
    rewrite app_nil_r. reflexivity.
  - reflexivity.
  - intros name Hname. cbn [er_results ir_results]. fold tc.
    destruct (record_names analysis_entry tc (metrics self) (world s) name)
      as (m & o & Ho & ->); [apply four_metrics_NoDup|done|].
    rewrite (record_lookup batch_entry _ ∅ name m o);
      [|rewrite outcomes_names; apply four_metrics_NoDup|done].
    eexists _, _. split_and!; [done|done|..];
      destruct o as [[score reason]|e]; try done.
    by intros [? ?].
Qed.

(** X7.  A batch can be run in two parts: the individual results of
    [cases1 ++ cases2] are those of [cases1] followed by those of
    [cases2] run from the state the first part left, the final state is
    the same, and for every metric the number of scored cases adds up. *)
Theorem batch_evaluate_app (self : SentinelEvaluator W)
    (cases1 cases2 : list LLMTestCase) s :
  ∃ s1 r1 s2 r2 r,
    batch_evaluate self cases1 s = (s1, Ok r1)
    ∧ batch_evaluate self cases2 s1 = (s2, Ok r2)
    ∧ batch_evaluate self (cases1 ++ cases2) s = (s2, Ok r)
    ∧ individual_results r = individual_results r1 ++ individual_results r2
    ∧ ∀ name,
        scored_cases name (individual_results r)
        = (scored_cases name (individual_results r1)
           + scored_cases name (individual_results r2))%nat.
Proof.
  eexists _, _, _, _, _. split_and!.
  - apply batch_evaluate_run.
  - apply batch_evaluate_run.
  - rewrite batch_evaluate_run. cbn [world calls].
    rewrite batch_world_app, length_app, replicate_add, join_app, app_assoc.
    reflexivity.
  - cbn [individual_results world]. apply batch_results_app.
  - intros name. cbn [individual_results world].
    rewrite batch_results_app. unfold scored_cases.
    by rewrite filter_app, length_app.
Qed.

(** X8.  The aggregate has entries under metric names only, and the
    count of an entry is at least one and at most the number of cases;
    it is the number of cases whose entry for that metric has a score. *)
Theorem aggregate_count_bounds rel hal ans fai (cases : list LLMTestCase) s :
  ∃ s' r,
    batch_evaluate (init rel hal ans fai) cases s = (s', Ok r)
    ∧ ∀ name agg,
        aggregate_scores r !! name = Some agg →
        name ∈ four_metrics
        ∧ ∃ count,
            agg !! "count" = Some (VInt count)
            ∧ (1 ≤ count ≤ Z.of_nat (length cases))%Z
            ∧ count = Z.of_nat (scored_cases name (individual_results r)).
Proof.
  set (self := init rel hal ans fai).
  rewrite batch_evaluate_run. eexists _, _. split; [reflexivity|].
  cbn [aggregate_scores individual_results].
  set (rs := batch_results (metrics self) cases (world s)).
  intros name agg Hname.
  assert (name ∈ four_metrics) as Hin.
  { destruct (decide (name ∈ keys self)) as [|Hno]; [done|].
    rewrite aggregate_of_other in Hname by done.
    by rewrite lookup_empty in Hname. }
  split; [done|].
  rewrite aggregate_of_lookup in Hname by (right; by rewrite lookup_empty).
  rewrite (scored_cases_length name rs)
    by apply batch_results_float_scores.
  pose proof (numeric_scores_length name rs) as Hle.
  assert (length rs = length cases) as Hlen.
  { rewrite <- (length_fmap ir_test_case). unfold rs.
    by rewrite batch_results_cases. }
  destruct (numeric_scores name rs) as [|f0 fs]; [discriminate|].
  injection Hname as <-. eexists. split; [reflexivity|].
  simpl length in *. split; lia.
Qed.

Lemma py_gt_asym (o1 o2 : Outcome) g :
  let val (o : Outcome) :=
    match o with Ok (score, _) => VFloat score | Raise _ => VInt 0 end in
  py_gt (val o1) (val o2) = Ok true →
  py_gt (val o2) (val o1) = Ok g → g = false.
Proof.
  intros val.
  destruct o1 as [[x ?]|?], o2 as [[y ?]|?]; unfold val, py_gt, compare_with;
    cbn [as_number to_float]; intros [= H1] [= <-];
    first [ by apply ltb_asym | done ].
Qed.

(** X9.  For a metric whose scorer is deterministic, swapping the two
    analyses cannot leave the cloud side ahead both times: if [better]
    is "cloud" for the pair (a, b), it is "ollama" for the pair
    (b, a), from whatever states the two comparisons are run. *)
Theorem better_is_asymmetric rel hal ans fai log a b s s0 name m :
  (name, m) ∈ metrics (init rel hal ans fai) →
  deterministic (measure m) →
  ∃ s1 r1 s2 r2 e1 e2,
    evaluate_comparison (init rel hal ans fai) log a b s = (s1, Ok r1)
    ∧ evaluate_comparison (init rel hal ans fai) log b a s0 = (s2, Ok r2)
    ∧ comparison r1 !! name = Some e1
    ∧ comparison r2 !! name = Some e2
    ∧ (e1 !! "better" = Some (VStr "cloud") →
       e2 !! "better" = Some (VStr "ollama")).
Proof.
  intros Hm Hdet. set (self := init rel hal ans fai).
  assert (name ∈ keys self) as Hname
    by (apply list_elem_of_fmap; by exists (name, m)).
  destruct (comparison_entries self log a b s)
    as (sa & s1 & r1 & Ho1 & Hc1 & Hrun1 & Hin1).
  destruct (comparison_entries self log b a s0)
    as (sb & s2 & r2 & Ho2 & Hc2 & Hrun2 & Hin2).
  destruct (Hin1 name Hname)
    as (e1 & l1 & c1 & He1 & Hl1 & Hcl1 & d1 & g1 & Hcmp1).
  destruct (Hin2 name Hname)
    as (e2 & l2 & c2 & He2 & Hl2 & Hcl2 & d2 & g2 & Hcmp2).
  destruct Hcmp1 as (_ & _ & _ & _ & Hg1 & Hb1).
  destruct Hcmp2 as (_ & _ & _ & _ & Hg2 & Hb2).
  exists s1, r1, s2, r2, e1, e2. split_and!; [done..|].
  destruct (evaluate_analysis_entry self _ _ _ _ _ _ name m
              four_metrics_NoDup Hm Ho1) as [w1 H1].
  destruct (evaluate_analysis_entry self _ _ _ _ _ _ name m
              four_metrics_NoDup Hm Hc1) as [w2 H2].
  destruct (evaluate_analysis_entry self _ _ _ _ _ _ name m
              four_metrics_NoDup Hm Ho2) as [w3 H3].
  destruct (evaluate_analysis_entry self _ _ _ _ _ _ name m
              four_metrics_NoDup Hm Hc2) as [w4 H4].
  rewrite (contributes_analysis _ _ _ _ _ H1 Hl1) in Hg1.
  rewrite (contributes_analysis _ _ _ _ _ H2 Hcl1) in Hg1.
  rewrite (contributes_analysis _ _ _ _ _ H3 Hl2) in Hg2.
  rewrite (contributes_analysis _ _ _ _ _ H4 Hcl2) in Hg2.
  rewrite (Hdet w3 w2), (Hdet w4 w1) in Hg2.
  rewrite Hb1, Hb2. intros Hcloud.
  destruct g1; [|discriminate].
  by rewrite (py_gt_asym _ _ _ Hg1 Hg2).
Qed.

End WithWorld.

(** *** Runs of X5 and X9 *)

Import Lab.

(** The order shows in a run: a relevance scorer that answers 0.5 to its
    first four questions and 0.9 afterwards gives 0.5 to the local
    analysis and 0.9 to the cloud analysis, the text being the same. *)
Example local_analysis_is_scored_first :
  let self := init (Lab.moody F64.lit_0_5 F64.lit_0_9)
                   (Lab.steady F64.lit_0_9) (Lab.steady F64.lit_0_9)
                   (Lab.steady F64.lit_0_9) in
  ∃ s' r local cloud,
    evaluate_comparison self "Error: Failed to install package"
                        "Severity: ERROR" "Severity: ERROR" Lab.start
      = (s', Ok r)
    ∧ er_results (ollama_evaluation r) !! "relevance" = Some local
    ∧ er_results (cloud_evaluation r) !! "relevance" = Some cloud
    ∧ local !! "score" = Some (VFloat F64.lit_0_5)
    ∧ cloud !! "score" = Some (VFloat F64.lit_0_9).
Proof.
  intros self. eexists _, _, _, _.
  split; [reflexivity|].
  split; [reflexivity|]. split; [reflexivity|]. by split.
Qed.

Lemma better_is_asymmetric_witness :
  let rel := grading "Severity: ERROR" F64.lit_0_9 F64.lit_0_1 in
  let self := init rel (steady F64.lit_0_9) (steady F64.lit_0_9)
                   (steady F64.lit_0_9) in
  ∃ s1 r1 s2 r2 e1 e2,
    evaluate_comparison self "Error: Failed to install package"
                        "Severity: INFO" "Severity: ERROR" start
      = (s1, Ok r1)
    ∧ evaluate_comparison self "Error: Failed to install package"
                          "Severity: ERROR" "Severity: INFO" start
      = (s2, Ok r2)
    ∧ comparison r1 !! "relevance" = Some e1
    ∧ comparison r2 !! "relevance" = Some e2
    ∧ (e1 !! "better" = Some (VStr "cloud") →
       e2 !! "better" = Some (VStr "ollama")).
Proof.
  intros rel self.
  apply (better_is_asymmetric rel (steady F64.lit_0_9) (steady F64.lit_0_9)
           (steady F64.lit_0_9) _ _ _ start start "relevance"
           (mkMetric F64.lit_0_7 rel)).
  - left.
  - by intros w1 w2 tc.
Defined.

End EvaluatorExtras.

(* ===================================================================== *)
(** ** Further properties of the dual analysis *)
(* ===================================================================== *)

Module DspyExtras.

Import DspyProgram Vocabulary DspyProperties.

#[local] Existing Instance complete_dec.

Section WithWorld.

Context {W : Type} `{Clock W} {python : F64.Interpreter}.

Implicit Types (self : SentinelAnalyzer W) (s : St W) (p : dict).

(** The attributes are read in the order of the dict literal: the
    error names the first one that is missing. *)
Lemma structured_result_first_missing p s k :
  first_missing fields p = Some k →
  structured_result p s = (s, Raise (Exception "AttributeError" k)).
Proof.
  unfold first_missing, fields, structured_result, getattr, lift, mbind,
    M_bind.
  cbn [List.find].
  destruct (p !! "severity"); [|by intros [= <-]].
  destruct (p !! "category"); [|by intros [= <-]].
  destruct (p !! "pattern_matched"); [|by intros [= <-]].
  destruct (p !! "suggested_action"); [|by intros [= <-]].
  destruct (p !! "learning_candidate"); [|by intros [= <-]].
  discriminate.
Qed.

(** X10.  When a prediction lacks attributes, [forward] raises
    [AttributeError] for the first missing one in the order severity,
    category, pattern_matched, suggested_action, learning_candidate: on
    the local side right after the local call, on the cloud side after
    both calls. *)
Theorem forward_names_first_missing_attribute self log use_both s :
  let o1 := ollama_lm self (world s) log in
  let o2 := cloud_lm self o1.1 log in
  (∀ p1 k,
     o1.2 = Ok p1 → first_missing fields p1 = Some k →
     forward self log use_both s
     = (mkSt o1.1 (calls s ++ ["ollama"]),
        Raise (Exception "AttributeError" k)))
  ∧ (∀ p1 p2 k,
       o1.2 = Ok p1 → complete p1 →
       o2.2 = Ok p2 → first_missing fields p2 = Some k →
       forward self log true s
       = (mkSt o2.1 (calls s ++ ["ollama"; "cloud"]),
          Raise (Exception "AttributeError" k))).
Proof.
  intros o1 o2. split.
  - intros p1 k Ho Hk. unfold forward, extern, mbind, M_bind.
    fold o1. destruct o1 as [w1 r1]. simpl in Ho. subst r1.
    by rewrite (structured_result_first_missing _ _ _ Hk).
  - intros p1 p2 k Ho Hp1 Hc Hk. unfold forward, extern, mbind, M_bind.
    fold o1. unfold o2 in *. destruct o1 as [w1 r1]. simpl in Ho. subst r1.
    destruct (structured_result_complete p1
                (mkSt w1 (calls s ++ ["ollama"])) Hp1) as (e1 & -> & _).
    cbn [world calls fst snd] in *. rewrite <- app_assoc. cbn [app].
    destruct (cloud_lm self w1 log) as [w2 r2]. simpl in Hc. subst r2.
    by rewrite (structured_result_first_missing _ _ _ Hk).
Qed.

(** X11.  A result of [forward] has the key "ollama", the key "cloud"
    when [use_both] is set, and no other key; and without [use_both] the
    call does not depend on the cloud model at all. *)
Theorem forward_keys self log use_both s :
  (∀ s' r,
     forward self log use_both s = (s', Ok r) →
     ∀ k, is_Some (r !! k) ↔ k = "ollama" ∨ (k = "cloud" ∧ use_both = true))
  ∧ ∀ other,
      forward (mkSentinelAnalyzer (ollama_lm self) other) log false s
      = forward self log false s.
Proof.
  split; [|done].
  intros s' r Hrun k.
  destruct (ollama_lm self (world s) log).2 as [p1|e] eqn:Ho.
  2: { rewrite (forward_local_raises _ _ _ _ _ Ho) in Hrun. discriminate. }
  destruct (decide (complete p1)) as [Hp1|Hp1].
  2: { destruct (forward_local_incomplete _ _ use_both _ _ Ho Hp1) as [e He].
       rewrite He in Hrun. discriminate. }
  destruct use_both.
  - pose proof (forward_both self log s p1 Ho Hp1) as Hboth.
    cbv zeta in Hboth.
    destruct (cloud_lm self _ log).2 as [p2|e].
    + destruct (decide (complete p2)).
      * destruct Hboth as (e1 & e2 & Hf & _). rewrite Hf in Hrun.
        injection Hrun as _ <-.
        destruct (decide (k = "cloud")) as [->|Hk1].
        { rewrite lookup_insert_eq. split; [by right|by eexists]. }
        rewrite lookup_insert_ne by done.
        destruct (decide (k = "ollama")) as [->|Hk2].
        { rewrite lookup_insert_eq. split; [by left|by eexists]. }
        rewrite lookup_insert_ne, lookup_empty by done.
        split; [by intros [? ?]|]. by intros [?|[? _]].
      * destruct Hboth as [e Hf]. rewrite Hf in Hrun. discriminate.
    + rewrite Hboth in Hrun. discriminate.
  - destruct (forward_local_only self log s p1 Ho Hp1) as (e1 & Hf & _).
    rewrite Hf in Hrun. injection Hrun as _ <-.
    destruct (decide (k = "ollama")) as [->|Hk2].
    { rewrite lookup_insert_eq. split; [by left|by eexists]. }
    rewrite lookup_insert_ne, lookup_empty by done.
    split; [by intros [? ?]|]. by intros [?|[_ ?]].
Qed.

End WithWorld.

End DspyExtras.
